(** * hyperion/utils/dataset.py : the Dataset registry

    A shallow embedding of the [Dataset] class (lazy table registry with
    manifest based persistence) and the properties of its accessors,
    [save] and [load].

    Python objects that are mutated in place (the [Dataset] instance, the
    file system) are threaded through a state and exception monad; the
    table classes ([SegmentSet], [RecordingSet], ...), [open] and [yaml]
    are collaborators that live outside this module and are taken as an
    interface ([World]). *)

From Stdlib Require Import String Ascii List Bool Arith Lia.
Import ListNotations.
Open Scope string_scope.
Open Scope list_scope.
Open Scope nat_scope.

Set Implicit Arguments.
Set Warnings "-register-all".

(* ================================================================== *)
(** ** Strings and [pathlib] paths *)

(** [str.rfind(c)]: index of the last occurrence, [None] standing for -1. *)
Fixpoint rfind (c : ascii) (s : string) : option nat :=
  match s with
  | EmptyString => None
  | String a s' =>
      match rfind c s' with
      | Some i => Some (S i)
      | None => if Ascii.eqb a c then Some 0 else None
      end
  end.

(** [s[i:]] *)
Fixpoint string_drop (i : nat) (s : string) : string :=
  match i, s with
  | 0, _ => s
  | S i', EmptyString => EmptyString
  | S i', String _ s' => string_drop i' s'
  end.

(** [s.split(c)] *)
Fixpoint split_on (c : ascii) (s : string) : list string :=
  match s with
  | EmptyString => [EmptyString]
  | String a s' =>
      if Ascii.eqb a c then EmptyString :: split_on c s'
      else match split_on c s' with
           | [] => [String a EmptyString]
           | w :: ws => String a w :: ws
           end
  end.

Definition starts_with_slash (s : string) : bool :=
  match s with
  | String a _ => Ascii.eqb a "/"
  | EmptyString => false
  end.

(** A POSIX [pathlib.Path]: whether it is anchored at the root, and its
    components.  ([str] and [Path] arguments of the source are both
    represented by a [Path]; a leading double slash is not told apart
    from a single one.) *)
Record Path := mkPath { anchored : bool; parts : list string }.

Definition keep_part (s : string) : bool :=
  negb (String.eqb s "") && negb (String.eqb s ".").

(** [Path(s)]: empty components and single dots are collapsed. *)
Definition parse_path (s : string) : Path :=
  {| anchored := starts_with_slash s;
     parts := filter keep_part (split_on "/" s) |}.

(** [p.name] *)
Definition name (p : Path) : string := last (parts p) "".

(** [p.suffix]:
<<
    name = self.name
    i = name.rfind('.')
    if 0 < i < len(name) - 1: return name[i:]
    else: return ''
>> *)
Definition suffix (p : Path) : string :=
  let n := name p in
  match rfind "." n with
  | Some i => if (0 <? i) && (S i <? String.length n) then string_drop i n else ""
  | None => ""
  end.

(** [p.parent] *)
Definition parent (p : Path) : Path :=
  {| anchored := anchored p; parts := removelast (parts p) |}.

(** [p / q] *)
Definition path_join (p q : Path) : Path :=
  if anchored q then q
  else {| anchored := anchored p; parts := parts p ++ parts q |}.

(** [p / s] for a [str] [s] *)
Definition path_join_str (p : Path) (s : string) : Path :=
  path_join p (parse_path s).

Fixpoint parts_eqb (a b : list string) : bool :=
  match a, b with
  | [], [] => true
  | x :: a', y :: b' => String.eqb x y && parts_eqb a' b'
  | _, _ => false
  end.

Definition path_eqb (p q : Path) : bool :=
  Bool.eqb (anchored p) (anchored q) && parts_eqb (parts p) (parts q).

(* ================================================================== *)
(** ** Python dictionaries (insertion ordered) *)

Definition dict (V : Type) := list (string * V).

Fixpoint dict_get {V} (d : dict V) (k : string) : option V :=
  match d with
  | [] => None
  | (k', v) :: d' => if String.eqb k' k then Some v else dict_get d' k
  end.

(** [d[k] = v]: an existing key keeps its position, a new one goes last. *)
Fixpoint dict_set {V} (d : dict V) (k : string) (v : V) : dict V :=
  match d with
  | [] => [(k, v)]
  | (k', v') :: d' =>
      if String.eqb k' k then (k', v) :: d' else (k', v') :: dict_set d' k v
  end.

Definition dict_keys {V} (d : dict V) : list string := map fst d.

Definition dict_mem {V} (d : dict V) (k : string) : bool :=
  match dict_get d k with Some _ => true | None => false end.

(** [{k: f(k, v) for k, v in data.items()}] *)
Definition dict_comprehension {U V} (f : string -> U -> V) (data : dict U) : dict V :=
  fold_left (fun acc kv => dict_set acc (fst kv) (f (fst kv) (snd kv))) data [].

(* ================================================================== *)
(** ** Values of the manifest document and exceptions *)

(** What [yaml.safe_load] builds and [yaml.dump] consumes. *)
Inductive Yaml :=
| YNone
| YBool (b : bool)
| YInt (n : nat)
| YStr (s : string)
| YSeq (l : list Yaml)
| YMap (m : list (string * Yaml)).

Inductive PyErr :=
| AssertionError
| KeyError (k : string)
| AttributeError (attr : string)
| TypeError (what : string)
| ValueError (what : string)
| UnsupportedOperation (what : string)
| ExternalError (tag : string).

Inductive TableKind :=
| KSegmentSet | KRecordingSet | KFeatureSet | KClassInfo | KEnrollmentMap
| KTrialKey | KTrialNdx | KSparseTrialKey.

Definition kind_eqb (a b : TableKind) : bool :=
  match a, b with
  | KSegmentSet, KSegmentSet | KRecordingSet, KRecordingSet
  | KFeatureSet, KFeatureSet | KClassInfo, KClassInfo
  | KEnrollmentMap, KEnrollmentMap | KTrialKey, KTrialKey
  | KTrialNdx, KTrialNdx | KSparseTrialKey, KSparseTrialKey => true
  | _, _ => false
  end.

(** The separator argument of a collaborator call: not passed at all
    (the trial classes), or passed with the value of a [table_sep]
    variable, which may be [None]. *)
Inductive SepArg :=
| NoSep
| Sep (s : option string).

(** File modes of [open]. *)
Inductive Mode := ModeR | ModeW.

(** ** The collaborators

    [X.load(path[, sep])] and [obj.save(path[, sep])] of the table
    classes, [Path.is_file], [open] and the YAML codec.  Each of them
    can raise. *)
Class World := {
  Disk : Type;
  TableData : Type;
  table_load : TableKind -> Path -> SepArg -> Disk -> PyErr + TableData;
  table_save : TableKind -> TableData -> Path -> SepArg -> Disk -> PyErr + Disk;
  (** [p.is_file()]: [False] for a missing path, and the [OSError] of
      the [stat] call for any other failure *)
  path_is_file : Path -> Disk -> PyErr + bool;
  (** [open(p, "w")]: creates or truncates the file *)
  open_w : Path -> Disk -> PyErr + Disk;
  (** [open(p, "r")] followed by parsing what the file holds *)
  yaml_read : Path -> Disk -> PyErr + Yaml;
  (** [yaml.dump(doc, f)] on a handle opened for writing *)
  yaml_dump : Yaml -> Path -> Disk -> PyErr + Disk
}.

(* ================================================================== *)
(** ** State and exception monad

    A Python call either returns a value or raises; in both cases the
    mutations it made so far stay. *)

Inductive Res (A : Type) :=
| Return (a : A)
| Raise (e : PyErr).
Arguments Return {A} a.
Arguments Raise {A} e.

Definition M (S A : Type) : Type := S -> Res A * S.

Definition ret {S A} (a : A) : M S A := fun st => (Return a, st).

Definition raise {S A} (e : PyErr) : M S A := fun st => (Raise e, st).

Definition bind {S A B} (m : M S A) (k : A -> M S B) : M S B :=
  fun st =>
    match m st with
    | (Return a, st') => k a st'
    | (Raise e, st') => (Raise e, st')
    end.

(** [try: m except: h] with a bare [except] *)
Definition try_except {S A} (m : M S A) (h : M S A) : M S A :=
  fun st =>
    match m st with
    | (Return a, st') => (Return a, st')
    | (Raise _, st') => h st'
    end.

Definition lift {S A} (r : Res A) : M S A := fun st => (r, st).

Definition py_assert {S} (b : bool) : M S unit :=
  if b then ret tt else raise AssertionError.

Notation "x <- m ;; k" := (bind m (fun x => k))
  (at level 61, m at next level, right associativity).
Notation "m ;; k" := (bind m (fun _ => k))
  (at level 61, right associativity).

(** [for x in l: acc = body(acc, x)] *)
Fixpoint for_fold {S A B} (l : list A) (body : B -> A -> M S B) (acc : B) : M S B :=
  match l with
  | [] => ret acc
  | x :: l' => acc' <- body acc x ;; for_fold l' body acc'
  end.

Definition is_some {A} (o : option A) : bool :=
  match o with Some _ => true | None => false end.

(** The tab character, ["\t"]. *)
Definition tab : string := String (ascii_of_nat 9) EmptyString.

(* ================================================================== *)
(** ** Path resolution *)

(** [Dataset.resolve_dataset_path]:
<<
    dataset_path = Path(dataset_path)
    ext = dataset_path.suffix
    if ext in [".yaml", "yml"]:
        dataset_file = dataset_path
        dataset_dir = dataset_path.parent
    else:
        dataset_file = dataset_path / "dataset.yaml"
        dataset_dir = dataset_path
    return dataset_dir, dataset_file
>> *)
Definition resolve_dataset_path (dataset_path : Path) : Path * Path :=
  let ext := suffix dataset_path in
  if existsb (String.eqb ext) [".yaml"; "yml"] then
    (parent dataset_path, dataset_path)
  else
    (dataset_path, path_join_str dataset_path "dataset.yaml").

(** The reading of the documentation: a [.yaml] or [.yml] file is the
    manifest itself, anything else is the directory holding
    [dataset.yaml]. *)
Definition resolve_dataset_path_spec (dataset_path : Path) : Path * Path :=
  let ext := suffix dataset_path in
  if String.eqb ext ".yaml" || String.eqb ext ".yml" then
    (parent dataset_path, dataset_path)
  else
    (dataset_path, path_join_str dataset_path "dataset.yaml").

(* ================================================================== *)
(** ** The registry *)

Section Registry.
Context {W : World}.

(** A table object: the identity of the instance, its class and what it
    holds. *)
Record Table := mkTable {
  tbl_id : nat;
  tbl_kind : TableKind;
  tbl_data : TableData
}.

Definition Objects := dict (option Table).
Definition Paths := dict (option Path).

(** The attributes that [__init__] sets on the instance. *)
Record Dataset := mkDataset {
  _segments : option Table;
  _segments_path : option Path;
  _classes : option Objects;
  _classes_paths : option Paths;
  _recordings : option Objects;
  _recordings_paths : option Paths;
  _features : option Objects;
  _features_paths : option Paths;
  _enrollments : option Objects;
  _enrollments_paths : option Paths;
  _trials : option Objects;
  _trials_paths : option Paths;
  sparse_trials : bool;
  table_sep : option string
}.

(** Attribute assignment [self.x = v]. *)
Definition set__segments (v : option Table) (d : Dataset) : Dataset :=
  mkDataset v (_segments_path d) (_classes d) (_classes_paths d)
    (_recordings d) (_recordings_paths d) (_features d) (_features_paths d)
    (_enrollments d) (_enrollments_paths d) (_trials d) (_trials_paths d)
    (sparse_trials d) (table_sep d).

Definition set__segments_path (v : option Path) (d : Dataset) : Dataset :=
  mkDataset (_segments d) v (_classes d) (_classes_paths d)
    (_recordings d) (_recordings_paths d) (_features d) (_features_paths d)
    (_enrollments d) (_enrollments_paths d) (_trials d) (_trials_paths d)
    (sparse_trials d) (table_sep d).

Definition set__classes (v : option Objects) (d : Dataset) : Dataset :=
  mkDataset (_segments d) (_segments_path d) v (_classes_paths d)
    (_recordings d) (_recordings_paths d) (_features d) (_features_paths d)
    (_enrollments d) (_enrollments_paths d) (_trials d) (_trials_paths d)
    (sparse_trials d) (table_sep d).

Definition set__classes_paths (v : option Paths) (d : Dataset) : Dataset :=
  mkDataset (_segments d) (_segments_path d) (_classes d) v
    (_recordings d) (_recordings_paths d) (_features d) (_features_paths d)
    (_enrollments d) (_enrollments_paths d) (_trials d) (_trials_paths d)
    (sparse_trials d) (table_sep d).

Definition set__recordings (v : option Objects) (d : Dataset) : Dataset :=
  mkDataset (_segments d) (_segments_path d) (_classes d) (_classes_paths d)
    v (_recordings_paths d) (_features d) (_features_paths d)
    (_enrollments d) (_enrollments_paths d) (_trials d) (_trials_paths d)
    (sparse_trials d) (table_sep d).

Definition set__recordings_paths (v : option Paths) (d : Dataset) : Dataset :=
  mkDataset (_segments d) (_segments_path d) (_classes d) (_classes_paths d)
    (_recordings d) v (_features d) (_features_paths d)
    (_enrollments d) (_enrollments_paths d) (_trials d) (_trials_paths d)
    (sparse_trials d) (table_sep d).

Definition set__features (v : option Objects) (d : Dataset) : Dataset :=
  mkDataset (_segments d) (_segments_path d) (_classes d) (_classes_paths d)
    (_recordings d) (_recordings_paths d) v (_features_paths d)
    (_enrollments d) (_enrollments_paths d) (_trials d) (_trials_paths d)
    (sparse_trials d) (table_sep d).

Definition set__features_paths (v : option Paths) (d : Dataset) : Dataset :=
  mkDataset (_segments d) (_segments_path d) (_classes d) (_classes_paths d)
    (_recordings d) (_recordings_paths d) (_features d) v
    (_enrollments d) (_enrollments_paths d) (_trials d) (_trials_paths d)
    (sparse_trials d) (table_sep d).

Definition set__enrollments (v : option Objects) (d : Dataset) : Dataset :=
  mkDataset (_segments d) (_segments_path d) (_classes d) (_classes_paths d)
    (_recordings d) (_recordings_paths d) (_features d) (_features_paths d)
    v (_enrollments_paths d) (_trials d) (_trials_paths d)
    (sparse_trials d) (table_sep d).

Definition set__enrollments_paths (v : option Paths) (d : Dataset) : Dataset :=
  mkDataset (_segments d) (_segments_path d) (_classes d) (_classes_paths d)
    (_recordings d) (_recordings_paths d) (_features d) (_features_paths d)
    (_enrollments d) v (_trials d) (_trials_paths d)
    (sparse_trials d) (table_sep d).

Definition set__trials (v : option Objects) (d : Dataset) : Dataset :=
  mkDataset (_segments d) (_segments_path d) (_classes d) (_classes_paths d)
    (_recordings d) (_recordings_paths d) (_features d) (_features_paths d)
    (_enrollments d) (_enrollments_paths d) v (_trials_paths d)
    (sparse_trials d) (table_sep d).

Definition set__trials_paths (v : option Paths) (d : Dataset) : Dataset :=
  mkDataset (_segments d) (_segments_path d) (_classes d) (_classes_paths d)
    (_recordings d) (_recordings_paths d) (_features d) (_features_paths d)
    (_enrollments d) (_enrollments_paths d) (_trials d) v
    (sparse_trials d) (table_sep d).

Definition set_table_sep (v : option string) (d : Dataset) : Dataset :=
  mkDataset (_segments d) (_segments_path d) (_classes d) (_classes_paths d)
    (_recordings d) (_recordings_paths d) (_features d) (_features_paths d)
    (_enrollments d) (_enrollments_paths d) (_trials d) (_trials_paths d)
    (sparse_trials d) v.

(** The five optional groups and their pair of attributes. *)
Inductive Group := GRecordings | GFeatures | GClasses | GEnrollments | GTrials.

Definition objects_of (g : Group) : Dataset -> option Objects :=
  match g with
  | GRecordings => _recordings
  | GFeatures => _features
  | GClasses => _classes
  | GEnrollments => _enrollments
  | GTrials => _trials
  end.

Definition paths_of (g : Group) : Dataset -> option Paths :=
  match g with
  | GRecordings => _recordings_paths
  | GFeatures => _features_paths
  | GClasses => _classes_paths
  | GEnrollments => _enrollments_paths
  | GTrials => _trials_paths
  end.

Definition set_objects (g : Group) : option Objects -> Dataset -> Dataset :=
  match g with
  | GRecordings => set__recordings
  | GFeatures => set__features
  | GClasses => set__classes
  | GEnrollments => set__enrollments
  | GTrials => set__trials
  end.

Definition set_paths (g : Group) : option Paths -> Dataset -> Dataset :=
  match g with
  | GRecordings => set__recordings_paths
  | GFeatures => set__features_paths
  | GClasses => set__classes_paths
  | GEnrollments => set__enrollments_paths
  | GTrials => set__trials_paths
  end.

(** Calls made to the collaborators, oldest first. *)
Inductive IOEvent :=
| EvLoad (k : TableKind) (p : Path) (sep : SepArg)
| EvSave (t : Table) (p : Path) (sep : SepArg)
| EvOpen (p : Path) (m : Mode)
| EvYamlLoad (p : Path)
| EvYamlDump (doc : Yaml) (p : Path).

(** The receiver [self], the file system, the calls made so far and the
    identity the next created table object gets. *)
Record St := mkSt {
  self : Dataset;
  disk : Disk;
  trace : list IOEvent;
  next_id : nat
}.

Definition Py (A : Type) : Type := M St A.

Definition get_self : Py Dataset := fun st => (Return (self st), st).

Definition modify_self (f : Dataset -> Dataset) : Py unit :=
  fun st => (Return tt, mkSt (f (self st)) (disk st) (trace st) (next_id st)).

Definition log (ev : IOEvent) (st : St) : St :=
  mkSt (self st) (disk st) (trace st ++ [ev]) (next_id st).

(** [K.load(p)] or [K.load(p, sep=...)]: a fresh object on success. *)
Definition load_table (k : TableKind) (p : Path) (sep : SepArg) : Py Table :=
  fun st =>
    let st1 := log (EvLoad k p sep) st in
    match table_load k p sep (disk st) with
    | inl e => (Raise e, st1)
    | inr data =>
        (Return (mkTable (next_id st) k data),
         mkSt (self st1) (disk st1) (trace st1) (S (next_id st1)))
    end.

(** [t.save(p)] or [t.save(p, sep=...)] *)
Definition save_table (t : Table) (p : Path) (sep : SepArg) : Py unit :=
  fun st =>
    let st1 := log (EvSave t p sep) st in
    match table_save (tbl_kind t) (tbl_data t) p sep (disk st) with
    | inl e => (Raise e, st1)
    | inr dk => (Return tt, mkSt (self st1) dk (trace st1) (next_id st1))
    end.

(** [v.save(...)] where [v] may be [None] *)
Definition obj_save (v : option Table) (p : Path) (sep : SepArg) : Py unit :=
  match v with
  | None => raise (AttributeError "save")
  | Some t => save_table t p sep
  end.

(** An open file: its path and mode. *)
Definition Handle : Type := Path * Mode.

(** [open(p, mode)] *)
Definition py_open (p : Path) (m : Mode) : Py Handle :=
  fun st =>
    let st1 := log (EvOpen p m) st in
    match m with
    | ModeR => (Return (p, m), st1)
    | ModeW =>
        match open_w p (disk st) with
        | inl e => (Raise e, st1)
        | inr dk => (Return (p, m), mkSt (self st1) dk (trace st1) (next_id st1))
        end
    end.

(** [yaml.safe_load(f)]: the reader calls [f.read], which a handle that
    was opened for writing refuses. *)
Definition yaml_safe_load (f : Handle) : Py Yaml :=
  match snd f with
  | ModeW => raise (UnsupportedOperation "not readable")
  | ModeR =>
      fun st =>
        let st1 := log (EvYamlLoad (fst f)) st in
        match yaml_read (fst f) (disk st) with
        | inl e => (Raise e, st1)
        | inr doc => (Return doc, st1)
        end
  end.

(** [yaml.dump(doc, f)] *)
Definition yaml_dump_to (doc : Yaml) (f : Handle) : Py unit :=
  match snd f with
  | ModeR => raise (UnsupportedOperation "not writable")
  | ModeW =>
      fun st =>
        let st1 := log (EvYamlDump doc (fst f)) st in
        match yaml_dump doc (fst f) (disk st) with
        | inl e => (Raise e, st1)
        | inr dk => (Return tt, mkSt (self st1) dk (trace st1) (next_id st1))
        end
  end.

(** *** Construction *)

(** A constructor argument: a table object or a path ([str] or [Path]). *)
Inductive PyArg :=
| AObj (t : Table)
| APath (p : Path).

(** [isinstance(v, types)] for table classes *)
Definition isinstance (v : PyArg) (types : list TableKind) : bool :=
  match v with
  | AObj t => existsb (kind_eqb (tbl_kind t)) types
  | APath _ => false
  end.

(** [_parse_dict_args]:
<<
    if data is None: return None, None
    objects = {k: (v if isinstance(v, types) else None) for k, v in data.items()}
    paths = {k: (v if isinstance(v, (str, Path)) else None) for k, v in data.items()}
    return objects, paths
>> *)
Definition _parse_dict_args (data : option (dict PyArg)) (types : list TableKind)
  : option Objects * option Paths :=
  match data with
  | None => (None, None)
  | Some data =>
      (Some (dict_comprehension
               (fun _ v => match v with
                           | AObj t => if isinstance v types then Some t else None
                           | APath _ => None
                           end) data),
       Some (dict_comprehension
               (fun _ v => match v with
                           | APath p => Some p
                           | AObj _ => None
                           end) data))
  end.

(** [Dataset.__init__] *)
Definition __init__ (segments : PyArg)
    (classes recordings features enrollments trials : option (dict PyArg))
    (sparse_trials : bool) (table_sep : option string) : Res Dataset :=
  match
    (if isinstance segments [KSegmentSet] then
       match segments with
       | AObj t => Return (Some t, None)
       | APath _ => Raise AssertionError
       end
     else
       match segments with
       | APath p => Return (None, Some p)
       | AObj _ => Raise AssertionError
       end)
  with
  | Raise e => Raise e
  | Return (segs, segs_path) =>
      let (cl, cl_p) := _parse_dict_args classes [KClassInfo] in
      let (rc, rc_p) := _parse_dict_args recordings [KRecordingSet] in
      let (ft, ft_p) := _parse_dict_args features [KFeatureSet] in
      let (en, en_p) := _parse_dict_args enrollments [KEnrollmentMap] in
      let (tr, tr_p) :=
        _parse_dict_args trials [KTrialKey; KTrialNdx; KSparseTrialKey] in
      Return (mkDataset segs segs_path cl cl_p rc rc_p ft ft_p en en_p tr tr_p
                sparse_trials table_sep)
  end.

(** *** Attribute lookup

    [self.name] finds what [__init__] assigned and what the class
    defines; any other name raises [AttributeError]. *)
Inductive AttrVal :=
| ATable (v : option Table)
| APathRef (v : option Path)
| AObjects (v : option Objects)
| APaths (v : option Paths)
| AFlag (b : bool)
| ASepVal (s : option string)
| AMethod.

Definition instance_attrs (d : Dataset) : dict AttrVal :=
  [ ("_segments", ATable (_segments d));
    ("_segments_path", APathRef (_segments_path d));
    ("_classes", AObjects (_classes d));
    ("_classes_paths", APaths (_classes_paths d));
    ("_recordings", AObjects (_recordings d));
    ("_recordings_paths", APaths (_recordings_paths d));
    ("_features", AObjects (_features d));
    ("_features_paths", APaths (_features_paths d));
    ("_enrollments", AObjects (_enrollments d));
    ("_enrollments_paths", APaths (_enrollments_paths d));
    ("_trials", AObjects (_trials d));
    ("_trials_paths", APaths (_trials_paths d));
    ("sparse_trials", AFlag (sparse_trials d));
    ("table_sep", ASepVal (table_sep d)) ].

Definition class_attrs : list string :=
  [ "__init__"; "_parse_dict_args"; "segments"; "recordings_value";
    "features_value"; "classes_value"; "enrollments_value"; "trials_value";
    "recordings"; "features"; "classes"; "enrollments"; "trials";
    "resolve_dataset_path"; "resolve_file_path"; "save"; "update_from_disk";
    "load" ].

Definition getattr (d : Dataset) (attr : string) : Res AttrVal :=
  match dict_get (instance_attrs d) attr with
  | Some v => Return v
  | None =>
      if existsb (String.eqb attr) class_attrs then Return AMethod
      else Raise (AttributeError attr)
  end.

(** *** Accessors *)

(** [segments]:
<<
    if self._segments is None:
        assert self._segments_path is not None
        segments = SegmentSet.load(self.segments_path, sep=self.table_sep)
        if keep_loaded:
            self._segments = segments
        return segments
    return self._segments
>> *)
Definition segments (keep_loaded : bool) : Py Table :=
  d <- get_self ;;
  match _segments d with
  | None =>
      py_assert (is_some (_segments_path d)) ;;
      a <- lift (getattr d "segments_path") ;;
      match a with
      | APathRef (Some p) =>
          segs <- load_table KSegmentSet p (Sep (table_sep d)) ;;
          (if keep_loaded then modify_self (set__segments (Some segs))
           else ret tt) ;;
          ret segs
      | _ => raise (TypeError "not a path")
      end
  | Some t => ret t
  end.

(** [d[key]] on an attribute that holds a dictionary or [None] *)
Definition getitem {V} (d : option (dict V)) (key : string) : Py V :=
  match d with
  | None => raise (TypeError "'NoneType' object is not subscriptable")
  | Some m =>
      match dict_get m key with
      | Some v => ret v
      | None => raise (KeyError key)
      end
  end.

(** [self._<group>[key] = v] *)
Definition setitem_object (g : Group) (key : string) (v : option Table) : Py unit :=
  d <- get_self ;;
  match objects_of g d with
  | None => raise (TypeError "'NoneType' object does not support item assignment")
  | Some m => modify_self (set_objects g (Some (dict_set m key v)))
  end.

(** [self._<group>_paths[key] = v] *)
Definition setitem_path (g : Group) (key : string) (v : option Path) : Py unit :=
  d <- get_self ;;
  match paths_of g d with
  | None => raise (TypeError "'NoneType' object does not support item assignment")
  | Some m => modify_self (set_paths g (Some (dict_set m key v)))
  end.

(** The body shared by the five [<group>_value] methods, which differ in
    the group and in the [load] call only:
<<
    if self._<group>[key] is None:
        assert self._<group>_paths[key] is not None
        x = <load>(self._<group>_paths[key])
        if keep_loaded:
            self._<group>[key] = x
    return self._<group>[key]
>> *)
Definition group_value (g : Group) (loader : Path -> Py Table)
    (key : string) (keep_loaded : bool) : Py (option Table) :=
  d <- get_self ;;
  cur <- getitem (objects_of g d) key ;;
  match cur with
  | None =>
      p <- getitem (paths_of g d) key ;;
      match p with
      | None => raise AssertionError
      | Some path =>
          x <- loader path ;;
          if keep_loaded then setitem_object g key (Some x) else ret tt
      end
  | Some _ => ret tt
  end ;;
  d' <- get_self ;;
  getitem (objects_of g d') key.

(** [K.load(path, sep=self.table_sep)]; [classes_value] passes the
    separator as the second positional argument. *)
Definition load_with_sep (k : TableKind) (path : Path) : Py Table :=
  d <- get_self ;;
  load_table k path (Sep (table_sep d)).

(** The [load] call of [trials_value]:
<<
    try:
        if self.sparse_trials:
            trials = SparseTrialKey.load(self._trials_paths[key])
        else:
            trials = TrialKey.load(self._trials_paths[key])
    except:
        trials = TrialNdx.load(self._trials_paths[key])
>> *)
Definition load_trials (path : Path) : Py Table :=
  try_except
    (d <- get_self ;;
     if sparse_trials d then load_table KSparseTrialKey path NoSep
     else load_table KTrialKey path NoSep)
    (load_table KTrialNdx path NoSep).

Definition recordings_value : string -> bool -> Py (option Table) :=
  group_value GRecordings (load_with_sep KRecordingSet).

Definition features_value : string -> bool -> Py (option Table) :=
  group_value GFeatures (load_with_sep KFeatureSet).

Definition classes_value : string -> bool -> Py (option Table) :=
  group_value GClasses (load_with_sep KClassInfo).

Definition enrollments_value : string -> bool -> Py (option Table) :=
  group_value GEnrollments (load_with_sep KEnrollmentMap).

Definition trials_value : string -> bool -> Py (option Table) :=
  group_value GTrials load_trials.

(** The accessor of a group. *)
Definition value_of (g : Group) : string -> bool -> Py (option Table) :=
  match g with
  | GRecordings => recordings_value
  | GFeatures => features_value
  | GClasses => classes_value
  | GEnrollments => enrollments_value
  | GTrials => trials_value
  end.

(** *** Iterators

    A generator is the list of the keys it will visit, each with the
    accessor call that is made when the consumer asks for that item:
<<
    if self._<group> is None:
        yield from ()
    else:
        for key in self._<group>.keys():
            yield key, self.<group>_value(key, keep_loaded)
>> *)
Definition Gen : Type := list (string * Py (option Table)).

Definition items_of (g : Group) (keep_loaded : bool) : Py Gen :=
  d <- get_self ;;
  match objects_of g d with
  | None => ret []
  | Some m => ret (map (fun key => (key, value_of g key keep_loaded)) (dict_keys m))
  end.

Definition recordings : bool -> Py Gen := items_of GRecordings.
Definition features : bool -> Py Gen := items_of GFeatures.
Definition classes : bool -> Py Gen := items_of GClasses.
Definition enrollments : bool -> Py Gen := items_of GEnrollments.
Definition trials : bool -> Py Gen := items_of GTrials.

(** [for k, v in gen: acc = body(acc, k, v)] *)
Definition for_items {B} (gen : Py Gen) (body : B -> string -> option Table -> Py B)
    (acc : B) : Py B :=
  items <- gen ;;
  for_fold items (fun acc item => v <- snd item ;; body acc (fst item) v) acc.

(** *** Saving *)

Definition sep_is_tab (s : option string) : bool :=
  match s with
  | Some s => String.eqb s tab
  | None => false
  end.

(** One of the five loops of [save] (the loop over trials calls
    [v.save(file_path)] without a separator):
<<
    file_names = {}
    for k, v in self.<group>():
        file_name = k + table_ext
        file_names[k] = file_name
        file_path = dataset_dir / file_name
        v.save(file_path, sep=table_sep)
        if update_paths:
            self._<group>_paths[k] = file_path
>> *)
Definition save_group (g : Group) (sep : SepArg) (dataset_dir : Path)
    (table_ext : string) (update_paths : bool) : Py (dict string) :=
  for_items (items_of g true)
    (fun file_names k v =>
       let file_name := (k ++ table_ext)%string in
       let file_names := dict_set file_names k file_name in
       let file_path := path_join_str dataset_dir file_name in
       obj_save v file_path sep ;;
       (if update_paths then setitem_path g k (Some file_path) else ret tt) ;;
       ret file_names)
    [].

Definition yaml_of_names (file_names : dict string) : Yaml :=
  YMap (map (fun kv => (fst kv, YStr (snd kv))) file_names).

(** [if file_names: dataset[name] = file_names] *)
Definition add_group (dataset : dict Yaml) (group_name : string)
    (file_names : dict string) : dict Yaml :=
  match file_names with
  | [] => dataset
  | _ :: _ => dict_set dataset group_name (yaml_of_names file_names)
  end.

(** [Dataset.save] *)
Definition save (dataset_path : Path) (update_paths : bool)
    (table_sep_arg : option string) : Py unit :=
  d <- get_self ;;
  let table_sep := match table_sep_arg with
                   | None => table_sep d
                   | Some s => Some s
                   end in
  (if update_paths then modify_self (set_table_sep table_sep) else ret tt) ;;
  let table_ext := if sep_is_tab table_sep then ".tsv" else ".csv" in
  let dataset_dir := fst (resolve_dataset_path dataset_path) in
  let dataset_file := snd (resolve_dataset_path dataset_path) in
  let file_name := ("segments" ++ table_ext)%string in
  let dataset := dict_set [] "segments" (YStr file_name) in
  let file_path := path_join_str dataset_dir file_name in
  segs <- segments true ;;
  save_table segs file_path (Sep table_sep) ;;
  (if update_paths then modify_self (set__segments_path (Some file_path))
   else ret tt) ;;
  file_names <- save_group GRecordings (Sep table_sep) dataset_dir table_ext update_paths ;;
  let dataset := add_group dataset "recordings" file_names in
  file_names <- save_group GFeatures (Sep table_sep) dataset_dir table_ext update_paths ;;
  let dataset := add_group dataset "features" file_names in
  file_names <- save_group GClasses (Sep table_sep) dataset_dir table_ext update_paths ;;
  let dataset := add_group dataset "classes" file_names in
  file_names <- save_group GEnrollments (Sep table_sep) dataset_dir table_ext update_paths ;;
  let dataset := add_group dataset "enrollments" file_names in
  file_names <- save_group GTrials NoSep dataset_dir table_ext update_paths ;;
  let dataset := add_group dataset "trials" file_names in
  f <- py_open dataset_file ModeW ;;
  yaml_dump_to (YMap dataset) f.

(** [update_from_disk] *)
Definition update_from_disk : Py unit :=
  segments true ;;
  for_items (recordings true) (fun _ _ _ => ret tt) tt ;;
  for_items (features true) (fun _ _ _ => ret tt) tt ;;
  for_items (classes true) (fun _ _ _ => ret tt) tt ;;
  for_items (enrollments true) (fun _ _ _ => ret tt) tt ;;
  for_items (trials true) (fun _ _ _ => ret tt) tt.

(** *** Loading *)

(** A dynamically typed argument: a path object or a value of the parsed
    manifest. *)
Inductive PyVal :=
| VPath (p : Path)
| VYaml (y : Yaml).

(** [Dataset.resolve_file_path]:
<<
    if file_path.is_file():
        return file_path
    return dataset_dir / file_path
>>
    Only path objects have [is_file]. *)
Definition resolve_file_path (dataset_dir : Path) (file_path : PyVal) : Py Path :=
  match file_path with
  | VYaml _ => raise (AttributeError "is_file")
  | VPath p =>
      fun st =>
        match path_is_file p (disk st) with
        | inl e => (Raise e, st)
        | inr true => (Return p, st)
        | inr false => (Return (path_join dataset_dir p), st)
        end
  end.

Definition chars_of (s : string) : list Yaml :=
  map (fun c => YStr (String c EmptyString)) (list_ascii_of_string s).

(** [iter(y)] *)
Definition py_iter (y : Yaml) : Res (list Yaml) :=
  match y with
  | YMap m => Return (map (fun kv => YStr (fst kv)) m)
  | YSeq l => Return l
  | YStr s => Return (chars_of s)
  | _ => Raise (TypeError "object is not iterable")
  end.

(** [key in y] for a string [key] *)
Definition py_in (key : string) (y : Yaml) : Res bool :=
  match y with
  | YMap m => Return (dict_mem m key)
  | YSeq l =>
      Return (existsb (fun x => match x with
                                | YStr s => String.eqb s key
                                | _ => false
                                end) l)
  | YStr s => Return (is_some (String.index 0 key s))
  | _ => Raise (TypeError "argument is not iterable")
  end.

(** [y[key]] for a string [key] *)
Definition py_subscript (y : Yaml) (key : string) : Res Yaml :=
  match y with
  | YMap m =>
      match dict_get m key with
      | Some v => Return v
      | None => Raise (KeyError key)
      end
  | YSeq _ | YStr _ => Raise (TypeError "indices must be integers")
  | _ => Raise (TypeError "object is not subscriptable")
  end.

(** [k, v = item] *)
Definition unpack2 (item : Yaml) : Res (Yaml * Yaml) :=
  match py_iter item with
  | Raise e => Raise e
  | Return [k; v] => Return (k, v)
  | Return _ => Raise (ValueError "wrong number of values to unpack")
  end.

(** One of the five group blocks of [load]; a key that is not a string
    is outside of what the constructor is declared to take:
<<
    if "<group>" in dataset:
        <group> = {}
        for k, v in dataset["<group>"]:
            <group>[k] = Dataset.resolve_file_path(dataset_dir, v)
>> *)
Definition load_group (dataset_dir : Path) (dataset : Yaml) (group_name : string)
  : Py (option (dict PyArg)) :=
  present <- lift (py_in group_name dataset) ;;
  if present then
    entry <- lift (py_subscript dataset group_name) ;;
    items <- lift (py_iter entry) ;;
    m <- for_fold items
           (fun acc item =>
              kv <- lift (unpack2 item) ;;
              p <- resolve_file_path dataset_dir (VYaml (snd kv)) ;;
              match fst kv with
              | YStr k => ret (dict_set acc k (APath p))
              | _ => raise (TypeError "key is not a string")
              end)
           [] ;;
    ret (Some m)
  else ret None.

(** [obj.method()] on an object other than the current receiver *)
Definition call_on {A} (obj : Dataset) (m : Py A) : Py (A * Dataset) :=
  fun st =>
    match m (mkSt obj (disk st) (trace st) (next_id st)) with
    | (Return a, st') =>
        (Return (a, self st'), mkSt (self st) (disk st') (trace st') (next_id st'))
    | (Raise e, st') =>
        (Raise e, mkSt (self st) (disk st') (trace st') (next_id st'))
    end.

(** What [load] does with the parsed manifest, from
    [assert "segments" in dataset] on. *)
Definition load_document (dataset_dir : Path) (dataset : Yaml)
    (lazy sparse_trials : bool) : Py Dataset :=
  present <- lift (py_in "segments" dataset) ;;
  py_assert present ;;
  seg <- lift (py_subscript dataset "segments") ;;
  segments <- resolve_file_path dataset_dir (VYaml seg) ;;
  classes <- load_group dataset_dir dataset "classes" ;;
  recordings <- load_group dataset_dir dataset "recordings" ;;
  features <- load_group dataset_dir dataset "features" ;;
  enrollments <- load_group dataset_dir dataset "enrollments" ;;
  trials <- load_group dataset_dir dataset "trials" ;;
  dataset <- lift (__init__ (APath segments) classes recordings features
                     enrollments trials sparse_trials None) ;;
  if negb lazy then
    r <- call_on dataset update_from_disk ;;
    ret (snd r)
  else ret dataset.

(** [Dataset.load]:
<<
    dataset_dir, dataset_file = Dataset.resolve_dataset_path(dataset_path)
    with open(dataset_file, "w") as f:
        dataset = yaml.safe_load(f)
    assert "segments" in dataset
    ...
>> *)
Definition load (dataset_path : Path) (lazy sparse_trials : bool) : Py Dataset :=
  let dataset_dir := fst (resolve_dataset_path dataset_path) in
  let dataset_file := snd (resolve_dataset_path dataset_path) in
  f <- py_open dataset_file ModeW ;;
  dataset <- yaml_safe_load f ;;
  load_document dataset_dir dataset lazy sparse_trials.

End Registry.

(* ================================================================== *)
(** ** Vocabulary of the properties *)

Definition respects {S A} (R : S -> S -> Prop) (m : M S A) : Prop :=
  forall st, R st (snd (m st)).

Section Vocabulary.
Context {W : World}.

(** The slot of a key as the specification sees it: a materialized
    object, a reference to a file, or neither. *)
Inductive Slot :=
| Materialized (t : Table)
| Reference (p : Path)
| Unset.

Definition slot_of (g : Group) (key : string) (d : Dataset) : option Slot :=
  match objects_of g d with
  | None => None
  | Some objs =>
      match dict_get objs key with
      | None => None
      | Some (Some t) => Some (Materialized t)
      | Some None =>
          match paths_of g d with
          | None => Some Unset
          | Some paths =>
              match dict_get paths key with
              | Some (Some p) => Some (Reference p)
              | _ => Some Unset
              end
          end
      end
  end.

(** The [load] call of each accessor. *)
Definition loader_of (g : Group) : Path -> Py Table :=
  match g with
  | GRecordings => load_with_sep KRecordingSet
  | GFeatures => load_with_sep KFeatureSet
  | GClasses => load_with_sep KClassInfo
  | GEnrollments => load_with_sep KEnrollmentMap
  | GTrials => load_trials
  end.

(** [self._<group>[key] = t], as a function on the instance *)
Definition store_object (g : Group) (key : string) (t : Table) (d : Dataset) : Dataset :=
  match objects_of g d with
  | None => d
  | Some m => set_objects g (Some (dict_set m key (Some t))) d
  end.

Definition with_self (d : Dataset) (st : St) : St :=
  mkSt d (disk st) (trace st) (next_id st).

(** The path bookkeeping of an instance: the segment path and the
    key-to-path mapping of every group. *)
Definition bookkeeping (d : Dataset)
  : option Path * (option Paths * option Paths * option Paths * option Paths
                   * option Paths) :=
  (_segments_path d,
   (_recordings_paths d, _features_paths d, _classes_paths d,
    _enrollments_paths d, _trials_paths d)).

(** The keys of a group, none when the group is not configured. *)
Definition group_keys (g : Group) (d : Dataset) : list string :=
  match objects_of g d with
  | None => []
  | Some m => dict_keys m
  end.

(** A group is configured when its constructor argument was a
    dictionary, empty or not. *)
Definition configured (g : Group) (d : Dataset) : bool :=
  is_some (objects_of g d).

(** The key under which a group goes into the manifest. *)
Definition group_name (g : Group) : string :=
  match g with
  | GRecordings => "recordings"
  | GFeatures => "features"
  | GClasses => "classes"
  | GEnrollments => "enrollments"
  | GTrials => "trials"
  end.

(** The file names a loop of [save] records for the keys it visits. *)
Definition names_of (keys : list string) (table_ext : string) (acc : dict string)
  : dict string :=
  fold_left (fun acc k => dict_set acc k (k ++ table_ext)%string) keys acc.

(** The separator and the extension that a call of [save] works with. *)
Definition effective_sep (table_sep_arg : option string) (d : Dataset)
  : option string :=
  match table_sep_arg with
  | None => table_sep d
  | Some s => Some s
  end.

Definition ext_of (sep : option string) : string :=
  if sep_is_tab sep then ".tsv" else ".csv".

Definition is_trial_kind (k : TableKind) : bool :=
  match k with
  | KTrialKey | KTrialNdx | KSparseTrialKey => true
  | _ => false
  end.

(** The class whose [load] the accessor of a group calls first. *)
Definition kind_of (g : Group) (sparse : bool) : TableKind :=
  match g with
  | GRecordings => KRecordingSet
  | GFeatures => KFeatureSet
  | GClasses => KClassInfo
  | GEnrollments => KEnrollmentMap
  | GTrials => if sparse then KSparseTrialKey else KTrialKey
  end.

(** A collaborator call that agrees with the separators [lsep] (for
    loading) and [ssep] (for saving): a trial class is loaded without a
    separator and any other class with [sep=lsep]; a table is saved with
    [sep=ssep] or, in the trials loop, without one. *)
Definition event_ok (lsep ssep : option string) (ev : IOEvent) : Prop :=
  match ev with
  | EvLoad k _ a => a = if is_trial_kind k then NoSep else Sep lsep
  | EvSave _ _ a => a = Sep ssep \/ a = NoSep
  | _ => True
  end.

(** The instance keeps the same keys in every group. *)
Definition same_keys (st st' : St) : Prop :=
  forall g, group_keys g (self st') = group_keys g (self st).

(** The path bookkeeping and the stored separator are as before. *)
Definition same_bookkeeping (st st' : St) : Prop :=
  bookkeeping (self st') = bookkeeping (self st)
  /\ table_sep (self st') = table_sep (self st).

(** While the stored separator is [lsep], it stays so and only calls
    that agree with [lsep] and [ssep] are made. *)
Definition sep_discipline (lsep ssep : option string) (st st' : St) : Prop :=
  table_sep (self st) = lsep ->
  table_sep (self st') = lsep
  /\ exists evs, trace st' = trace st ++ evs /\ Forall (event_ok lsep ssep) evs.

(** The trace only grows. *)
Definition extends (st st' : St) : Prop :=
  exists evs, trace st' = trace st ++ evs.

(** The manifest document that [save] builds for an instance and a table
    extension. *)
Definition manifest_of (d : Dataset) (table_ext : string) : dict Yaml :=
  let dataset := dict_set [] "segments" (YStr ("segments" ++ table_ext)%string) in
  let dataset := add_group dataset "recordings"
                   (names_of (group_keys GRecordings d) table_ext []) in
  let dataset := add_group dataset "features"
                   (names_of (group_keys GFeatures d) table_ext []) in
  let dataset := add_group dataset "classes"
                   (names_of (group_keys GClasses d) table_ext []) in
  let dataset := add_group dataset "enrollments"
                   (names_of (group_keys GEnrollments d) table_ext []) in
  add_group dataset "trials" (names_of (group_keys GTrials d) table_ext []).

(** The manifest document that the last collaborator call wrote. *)
Definition written_manifest (st : St) : option (dict Yaml) :=
  match rev (trace st) with
  | EvYamlDump (YMap doc) _ :: _ => Some doc
  | _ => None
  end.

(** A group is omitted from the written manifest. *)
Definition omitted (g : Group) (st : St) : bool :=
  match written_manifest st with
  | Some doc => negb (dict_mem doc (group_name g))
  | None => false
  end.



(** The classes that [__init__] accepts as objects of a group. *)
Definition classes_of_group (g : Group) : list TableKind :=
  match g with
  | GRecordings => [KRecordingSet]
  | GFeatures => [KFeatureSet]
  | GClasses => [KClassInfo]
  | GEnrollments => [KEnrollmentMap]
  | GTrials => [KTrialKey; KTrialNdx; KSparseTrialKey]
  end.

(** The constructor argument that configures a group. *)
Definition group_arg (g : Group)
    (classes recordings features enrollments trials : option (dict PyArg))
  : option (dict PyArg) :=
  match g with
  | GRecordings => recordings
  | GFeatures => features
  | GClasses => classes
  | GEnrollments => enrollments
  | GTrials => trials
  end.

(** The slot that a constructor argument stands for. *)
Definition slot_of_arg (types : list TableKind) (v : PyArg) : Slot :=
  match v with
  | APath p => Reference p
  | AObj t =>
      if existsb (kind_eqb (tbl_kind t)) types then Materialized t else Unset
  end.

(** Every key of a group holds an object. *)
Definition all_materialized (g : Group) (d : Dataset) : Prop :=
  forall key, In key (group_keys g d) ->
    exists t, slot_of g key d = Some (Materialized t).

(** The files that the [save] calls of a trace wrote, oldest first. *)
Fixpoint saved_paths (evs : list IOEvent) : list Path :=
  match evs with
  | [] => []
  | EvSave _ p _ :: evs' => p :: saved_paths evs'
  | _ :: evs' => saved_paths evs'
  end.

Definition is_load (ev : IOEvent) : Prop :=
  match ev with
  | EvLoad _ _ _ => True
  | _ => False
  end.

(** The files of the keys of a group, in the order of the keys. *)
Definition group_files (g : Group) (d : Dataset) (dir : Path) (table_ext : string)
  : list Path :=
  map (fun k => path_join_str dir (k ++ table_ext)%string) (group_keys g d).

(** Slots that hold an object keep holding it. *)
Definition keeps_objects (st st' : St) : Prop :=
  forall g key t,
    slot_of g key (self st) = Some (Materialized t) ->
    slot_of g key (self st') = Some (Materialized t).

(** The path of the key [k] of group [g] is the file that [save] writes
    for it under [dir]. *)
Definition path_recorded (dir : Path) (table_ext : string) (g : Group)
    (k : string) (st : St) : Prop :=
  exists paths,
    paths_of g (self st) = Some paths
    /\ dict_get paths k = Some (Some (path_join_str dir (k ++ table_ext)%string)).

Definition keeps_paths (dir : Path) (table_ext : string) (st st' : St) : Prop :=
  (forall g k, path_recorded dir table_ext g k st ->
               path_recorded dir table_ext g k st')
  /\ (_segments_path (self st)
        = Some (path_join_str dir ("segments" ++ table_ext)%string) ->
      _segments_path (self st')
        = Some (path_join_str dir ("segments" ++ table_ext)%string)).

(** The state in which [save] starts to load and write: with
    [update_paths] the separator of the call is stored. *)
Definition save_start (up : bool) (sv : option string) (st : St) : St :=
  if up then with_self (set_table_sep sv (self st)) st else st.





End Vocabulary.

(* ================================================================== *)
(** ** A small file system

    An instance of the collaborators to run the registry on: a file is a
    table of one class, a YAML document or empty; a table loads under its
    own class only. *)

Inductive DemoFile :=
| TableFile (k : TableKind) (rows : list string)
| YamlFile (doc : Yaml)
| EmptyFile.

Definition DemoDisk : Type := list (Path * DemoFile).

Fixpoint demo_lookup (dk : DemoDisk) (p : Path) : option DemoFile :=
  match dk with
  | [] => None
  | (q, f) :: dk' => if path_eqb q p then Some f else demo_lookup dk' p
  end.

Definition demo_write (dk : DemoDisk) (p : Path) (f : DemoFile) : DemoDisk :=
  (p, f) :: filter (fun qf => negb (path_eqb (fst qf) p)) dk.

Definition demo_world : World :=
  {| Disk := DemoDisk;
     TableData := list string;
     table_load := fun k p _ dk =>
       match demo_lookup dk p with
       | Some (TableFile k' rows) =>
           if kind_eqb k' k then inr rows else inl (ExternalError "FormatError")
       | Some _ => inl (ExternalError "FormatError")
       | None => inl (ExternalError "NotFoundError")
       end;
     table_save := fun k rows p _ dk => inr (demo_write dk p (TableFile k rows));
     path_is_file := fun p dk => inr (is_some (demo_lookup dk p));
     open_w := fun p dk => inr (demo_write dk p EmptyFile);
     yaml_read := fun p dk =>
       match demo_lookup dk p with
       | Some (YamlFile doc) => inr doc
       | Some EmptyFile => inr YNone
       | Some _ => inl (ExternalError "YAMLError")
       | None => inl (ExternalError "NotFoundError")
       end;
     yaml_dump := fun doc p dk => inr (demo_write dk p (YamlFile doc)) |}.

(** A registry over [demo_world] whose segment table is in memory. *)
Definition demo_segments : Table (W := demo_world) :=
  mkTable (W := demo_world) 0 KSegmentSet ["utt1"; "utt2"].

Definition demo_dataset
    (classes recordings features enrollments trials : option (dict (PyArg (W := demo_world))))
    (sparse : bool) (sep : option string) : Dataset (W := demo_world) :=
  match __init__ (AObj demo_segments) classes recordings features enrollments
          trials sparse sep with
  | Return d => d
  | Raise _ =>
      mkDataset (W := demo_world) None None None None None None None None None
        None None None sparse sep
  end.

Definition demo_state (d : Dataset (W := demo_world)) (dk : DemoDisk)
  : St (W := demo_world) :=
  mkSt (W := demo_world) d dk [] 1.

Definition demo_disk : DemoDisk :=
  [ (parse_path "data/wav.csv", TableFile KRecordingSet ["rec1"; "rec2"]);
    (parse_path "data/eval.ndx", TableFile KTrialNdx ["trial1"]) ].

(** A registry whose recordings and trials are references to files. *)
Definition demo_lazy : Dataset (W := demo_world) :=
  demo_dataset None
    (Some [("wav", APath (W := demo_world) (parse_path "data/wav.csv"))])
    None None
    (Some [("eval", APath (W := demo_world) (parse_path "data/eval.ndx"))])
    false None.

(** A registry whose recordings group is configured but has no keys. *)
Definition demo_empty_group : Dataset (W := demo_world) :=
  demo_dataset None (Some []) None None None false None.

(** A registry whose recordings file does not exist. *)
Definition demo_broken : Dataset (W := demo_world) :=
  demo_dataset None
    (Some [("wav", APath (W := demo_world) (parse_path "data/missing.csv"))])
    None None
    (Some [("eval", APath (W := demo_world) (parse_path "data/eval.ndx"))])
    false None.

(** A registry whose segment table is a reference to a file. *)
Definition demo_unloaded : Dataset (W := demo_world) :=
  match __init__ (APath (W := demo_world) (parse_path "data/segments.csv"))
          None None None None None false None with
  | Return d => d
  | Raise _ => demo_empty_group
  end.

(** A directory whose manifest has a recordings group and no
    [segments] entry. *)
Definition demo_manifest : list (string * Yaml) :=
  [("recordings", YMap [("wav", YStr "wav.csv")])].

Definition demo_manifest_disk : DemoDisk :=
  [ (parse_path "ds/dataset.yaml", YamlFile (YMap demo_manifest));
    (parse_path "ds/wav.csv", TableFile KRecordingSet ["rec1"]) ].

(** A well-formed manifest. *)
Definition demo_full_manifest : list (string * Yaml) :=
  [("segments", YStr "segments.csv");
   ("recordings", YMap [("wav", YStr "wav.csv")])].

Definition demo_st : St (W := demo_world) := demo_state demo_lazy demo_disk.

(** The state after saving [demo_st] to [out] with a tab separator and
    [update_paths]. *)
Definition demo_saved : St (W := demo_world) :=
  snd (save (W := demo_world) (parse_path "out") true (Some tab) demo_st).


(** The state after saving [demo_empty_group]. *)
Definition demo_saved_empty : St (W := demo_world) :=
  snd (save (W := demo_world) (parse_path "out") true None
         (demo_state demo_empty_group [])).

(** The state after [update_from_disk] on [demo_st]. *)
Definition demo_updated : St (W := demo_world) :=
  snd (update_from_disk (W := demo_world) demo_st).

(** The constructor arguments of [demo_lazy]. *)
Definition demo_recordings_arg : dict (PyArg (W := demo_world)) :=
  [("wav", APath (W := demo_world) (parse_path "data/wav.csv"))].

Definition demo_trials_arg : dict (PyArg (W := demo_world)) :=
  [("eval", APath (W := demo_world) (parse_path "data/eval.ndx"))].

(** [demo_st] after the recordings have been materialized. *)
Definition demo_loaded : St (W := demo_world) :=
  snd (value_of (W := demo_world) GRecordings "wav" true demo_st).

(* ================================================================== *)
(** ** Properties of paths *)

Lemma rfind_drop (c : ascii) (s : string) (i : nat) :
  rfind c s = Some i -> exists rest, string_drop i s = String c rest.
Proof.
  revert i. induction s as [|a s IH]; intros i H; simpl in H.
  - discriminate.
  - destruct (rfind c s) as [j|] eqn:E.
    + inversion H; subst. simpl. now apply IH.
    + destruct (Ascii.eqb a c) eqn:Ea; [|discriminate].
      inversion H; subst. apply Ascii.eqb_eq in Ea. subst. now exists s.
Qed.

(** A suffix is empty or starts with a dot. *)
Lemma suffix_shape (p : Path) :
  suffix p = "" \/ exists rest, suffix p = String "."%char rest.
Proof.
  unfold suffix.
  destruct (rfind "." (name p)) as [i|] eqn:E; [|now left].
  destruct ((0 <? i) && (S i <? String.length (name p))); [|now left].
  right. now apply rfind_drop.
Qed.

Lemma suffix_not_yml (p : Path) : String.eqb (suffix p) "yml" = false.
Proof.
  destruct (suffix_shape p) as [H | [rest H]]; rewrite H; reflexivity.
Qed.

(** Of the two entries of the list [[".yaml", "yml"]] only the first can
    match. *)
Lemma resolve_dataset_path_only_yaml (p : Path) :
  resolve_dataset_path p =
    if String.eqb (suffix p) ".yaml" then (parent p, p)
    else (p, path_join_str p "dataset.yaml").
Proof.
  unfold resolve_dataset_path. simpl.
  rewrite suffix_not_yml. rewrite !orb_false_r. reflexivity.
Qed.

(** C8 (as the code has it): a path whose suffix is [.yml] is not taken as
    the manifest file; it is treated as a directory, the manifest being
    [p/dataset.yaml], where the documented behaviour
    ([resolve_dataset_path_spec]) is the pair (parent of [p], [p]). *)
Theorem resolve_dataset_path_yml (p : Path) :
  suffix p = ".yml" ->
  resolve_dataset_path p = (p, path_join_str p "dataset.yaml")
  /\ resolve_dataset_path_spec p = (parent p, p)
  /\ resolve_dataset_path p <> resolve_dataset_path_spec p.
Proof.
  intros H.
  assert (E1 : resolve_dataset_path p = (p, path_join_str p "dataset.yaml")).
  { rewrite resolve_dataset_path_only_yaml, H. reflexivity. }
  assert (E2 : resolve_dataset_path_spec p = (parent p, p)).
  { unfold resolve_dataset_path_spec. rewrite H. reflexivity. }
  repeat split; trivial.
  rewrite E1, E2. intros C.
  injection C as _ C2.
  apply (f_equal (fun q => List.length (parts q))) in C2.
  unfold path_join_str, path_join in C2. simpl in C2.
  rewrite length_app in C2. simpl in C2. lia.
Qed.

Lemma resolve_dataset_path_yml_witness :
  suffix (parse_path "data/ds.yml") = ".yml"
  /\ resolve_dataset_path (parse_path "data/ds.yml")
     = (parse_path "data/ds.yml", parse_path "data/ds.yml/dataset.yaml")
  /\ resolve_dataset_path_spec (parse_path "data/ds.yml")
     = (parse_path "data", parse_path "data/ds.yml").
Proof.
  split; [reflexivity|].
  destruct (resolve_dataset_path_yml (parse_path "data/ds.yml") eq_refl)
    as (E1 & E2 & _).
  split; [rewrite E1 | rewrite E2]; reflexivity.
Defined.

(** On every other path the code and the documented behaviour agree. *)
Lemma resolve_dataset_path_agrees (p : Path) :
  suffix p <> ".yml" ->
  resolve_dataset_path p = resolve_dataset_path_spec p.
Proof.
  intros H. rewrite resolve_dataset_path_only_yaml.
  unfold resolve_dataset_path_spec.
  destruct (String.eqb (suffix p) ".yml") eqn:E.
  - apply String.eqb_eq in E. contradiction.
  - rewrite orb_false_r. reflexivity.
Qed.

(* ================================================================== *)
(** ** Properties of dictionaries *)

Lemma dict_get_set_same {V} (d : dict V) (k : string) (v : V) :
  dict_get (dict_set d k v) k = Some v.
Proof.
  induction d as [|[k' v'] d IH]; simpl.
  - now rewrite String.eqb_refl.
  - destruct (String.eqb k' k) eqn:E; simpl; rewrite E; auto.
Qed.

Lemma dict_get_set_other {V} (d : dict V) (k k' : string) (v : V) :
  k <> k' -> dict_get (dict_set d k v) k' = dict_get d k'.
Proof.
  intros N. induction d as [|[k0 v0] d IH]; simpl.
  - destruct (String.eqb k k') eqn:E; auto.
    apply String.eqb_eq in E. contradiction.
  - destruct (String.eqb k0 k) eqn:E; simpl.
    + apply String.eqb_eq in E. subst k0.
      destruct (String.eqb k k') eqn:E'; auto.
      apply String.eqb_eq in E'. contradiction.
    + now rewrite IH.
Qed.

Lemma dict_keys_set_present {V} (d : dict V) (k : string) (v x : V) :
  dict_get d k = Some x -> dict_keys (dict_set d k v) = dict_keys d.
Proof.
  induction d as [|[k' v'] d IH]; simpl; intros H.
  - discriminate.
  - destruct (String.eqb k' k) eqn:E; simpl; auto.
    f_equal. now apply IH.
Qed.

Lemma dict_set_not_nil {V} (d : dict V) (k : string) (v : V) :
  dict_set d k v <> [].
Proof.
  destruct d as [|[k' v'] d]; simpl; [discriminate|].
  destruct (String.eqb k' k); discriminate.
Qed.

(* ================================================================== *)
(** ** Properties of the accessors *)

Section Accessors.
Context {W : World}.

Lemma value_of_unfold (g : Group) :
  value_of g = group_value g (loader_of g).
Proof. destruct g; reflexivity. Qed.

Lemma objects_of_set_objects g v d : objects_of g (set_objects g v d) = v.
Proof. destruct g; reflexivity. Qed.

Lemma paths_of_set_objects g g' v d :
  paths_of g (set_objects g' v d) = paths_of g d.
Proof. destruct g, g'; reflexivity. Qed.

Lemma load_table_run k p sep st :
  load_table k p sep st =
    match table_load k p sep (disk st) with
    | inl e => (Raise e, log (EvLoad k p sep) st)
    | inr data =>
        (Return (mkTable (next_id st) k data),
         mkSt (self st) (disk st) (trace st ++ [EvLoad k p sep]) (S (next_id st)))
    end.
Proof. unfold load_table. destruct (table_load k p sep (disk st)); reflexivity. Qed.

(** A load touches neither the instance nor the files, and leaves at
    least one call in the trace. *)
Lemma load_table_frame k p sep st :
  self (snd (load_table k p sep st)) = self st
  /\ disk (snd (load_table k p sep st)) = disk st
  /\ trace (snd (load_table k p sep st)) = trace st ++ [EvLoad k p sep].
Proof.
  rewrite load_table_run. destruct (table_load k p sep (disk st)); simpl; auto.
Qed.

Lemma loader_frame g p st :
  self (snd (loader_of g p st)) = self st
  /\ disk (snd (loader_of g p st)) = disk st
  /\ exists evs, evs <> [] /\ trace (snd (loader_of g p st)) = trace st ++ evs.
Proof.
  assert (S1 : forall k, self (snd (load_with_sep k p st)) = self st
              /\ disk (snd (load_with_sep k p st)) = disk st
              /\ exists evs, evs <> []
                   /\ trace (snd (load_with_sep k p st)) = trace st ++ evs).
  { intros k. unfold load_with_sep, bind, get_self.
    destruct (load_table_frame k p (Sep (table_sep (self st))) st) as (A & B & C).
    repeat split; trivial. eexists; split; [|exact C]. discriminate. }
  destruct g; try apply S1.
  unfold loader_of, load_trials, try_except, bind, get_self.
  assert (S2 : forall k,
             let r := (let (r, st') := load_table k p NoSep st in
                       match r with
                       | Return a => (Return a, st')
                       | Raise _ => load_table KTrialNdx p NoSep st'
                       end) in
             self (snd r) = self st /\ disk (snd r) = disk st
             /\ exists evs, evs <> [] /\ trace (snd r) = trace st ++ evs).
  { intros k.
    destruct (load_table_frame k p NoSep st) as (A & B & C).
    destruct (load_table k p NoSep st) as [[t|e] st1] eqn:E1; simpl in *.
    - repeat split; trivial. eexists; split; [|exact C]. discriminate.
    - destruct (load_table_frame KTrialNdx p NoSep st1) as (A' & B' & C').
      rewrite A', B', C', A, B, C. repeat split; trivial.
      exists [EvLoad k p NoSep; EvLoad KTrialNdx p NoSep].
      split; [discriminate|]. now rewrite <- app_assoc. }
  destruct (sparse_trials (self st)); apply S2.
Qed.

(** What an accessor does on a slot that holds a reference. *)
Lemma group_value_reference g key p keep_loaded st :
  slot_of g key (self st) = Some (Reference p) ->
  value_of g key keep_loaded st =
    match loader_of g p st with
    | (Return t, st1) =>
        if keep_loaded
        then (Return (Some t), with_self (store_object g key t (self st)) st1)
        else (Return None, st1)
    | (Raise e, st1) => (Raise e, st1)
    end.
Proof.
  intros H. rewrite value_of_unfold.
  destruct (loader_frame g p st) as (Hs & _ & _).
  unfold slot_of in H. unfold group_value, store_object.
  destruct (objects_of g (self st)) as [objs|] eqn:Eo; [|discriminate].
  destruct (dict_get objs key) as [[t0|]|] eqn:Ek; try discriminate.
  destruct (paths_of g (self st)) as [paths|] eqn:Ep; [|discriminate].
  destruct (dict_get paths key) as [[p0|]|] eqn:Eq; try discriminate.
  inversion H; subst p0; clear H.
  unfold bind at 1. unfold get_self at 1. cbv beta iota.
  unfold bind at 1. unfold bind at 1. rewrite Eo. unfold getitem at 1.
  rewrite Ek. unfold ret at 1. cbv beta iota.
  unfold bind at 1. rewrite Ep. unfold getitem at 1. rewrite Eq.
  unfold ret at 1. cbv beta iota.
  unfold bind at 1.
  destruct (loader_of g p st) as [[t|e] st1] eqn:El; simpl in Hs; [|reflexivity].
  destruct keep_loaded.
  - unfold setitem_object, bind, get_self, modify_self. rewrite Hs, Eo.
    cbv beta iota. simpl self. rewrite objects_of_set_objects.
    unfold getitem. rewrite dict_get_set_same. unfold ret, with_self.
    rewrite ?Hs. reflexivity.
  - unfold ret at 1. unfold bind, get_self. rewrite Hs, Eo.
    unfold getitem. rewrite Ek. reflexivity.
Qed.

(** What an accessor does on a slot that holds an object. *)
Lemma group_value_materialized g key t keep_loaded st :
  slot_of g key (self st) = Some (Materialized t) ->
  value_of g key keep_loaded st = (Return (Some t), st).
Proof.
  intros H. rewrite value_of_unfold.
  unfold slot_of in H. unfold group_value.
  destruct (objects_of g (self st)) as [objs|] eqn:Eo; [|discriminate].
  destruct (dict_get objs key) as [[t0|]|] eqn:Ek; try discriminate.
  - inversion H; subst t0.
    unfold bind, get_self, getitem, ret. rewrite Eo, Ek. cbv beta iota.
    rewrite Eo, Ek. reflexivity.
  - destruct (paths_of g (self st)) as [paths|]; [|discriminate].
    destruct (dict_get paths key) as [[p0|]|]; discriminate.
Qed.

Lemma slot_of_store_object g key p t d :
  slot_of g key d = Some (Reference p) ->
  slot_of g key (store_object g key t d) = Some (Materialized t).
Proof.
  unfold slot_of, store_object.
  destruct (objects_of g d) as [objs|] eqn:Eo; [|discriminate].
  intros _. rewrite objects_of_set_objects, dict_get_set_same. reflexivity.
Qed.

(** C5: on a slot that holds a reference, a call with
    [keep_loaded = true] that returns has made the load calls (the trace
    grew), has turned the slot into a materialized one and returns the
    loaded object; a second call returns that same object and leaves the
    whole state, the trace of collaborator calls included, as it is. *)
Theorem accessor_keep_loaded_idempotent g key p st r st1 :
  slot_of g key (self st) = Some (Reference p) ->
  value_of g key true st = (Return r, st1) ->
  exists t evs,
    r = Some t
    /\ fst (loader_of g p st) = Return t
    /\ evs <> [] /\ trace st1 = trace st ++ evs
    /\ slot_of g key (self st1) = Some (Materialized t)
    /\ value_of g key true st1 = (Return (Some t), st1).
Proof.
  intros Hslot Hrun.
  rewrite group_value_reference with (p := p) in Hrun by assumption.
  destruct (loader_frame g p st) as (_ & _ & evs & Hne & Htr).
  destruct (loader_of g p st) as [[t|e] st'] eqn:El; [|discriminate].
  inversion Hrun; subst r st1; clear Hrun. simpl in Htr.
  assert (Hm : slot_of g key (self (with_self (store_object g key t (self st)) st'))
               = Some (Materialized t)).
  { simpl. eapply slot_of_store_object; eauto. }
  exists t, evs. repeat split; trivial.
  now apply group_value_materialized.
Qed.

(** C1 (as the code has it): on a slot that holds a reference, a call
    with [keep_loaded = false] that returns has loaded the table from the
    referenced path and left the instance untouched, and the next call
    loads again; but what it returns is [self._<group>[key]], which is
    still [None], not the table it loaded. *)
Theorem accessor_no_cache_returns_none g key p st r st1 :
  slot_of g key (self st) = Some (Reference p) ->
  value_of g key false st = (Return r, st1) ->
  (exists t, loader_of g p st = (Return t, st1))
  /\ r = None
  /\ self st1 = self st
  /\ (exists evs, evs <> [] /\ trace st1 = trace st ++ evs)
  /\ (exists evs, evs <> []
        /\ trace (snd (value_of g key false st1)) = trace st1 ++ evs).
Proof.
  intros Hslot Hrun.
  rewrite group_value_reference with (p := p) in Hrun by assumption.
  destruct (loader_frame g p st) as (Hs & _ & evs & Hne & Htr).
  destruct (loader_of g p st) as [[t|e] st'] eqn:El; [|discriminate].
  inversion Hrun; subst r st1; clear Hrun. simpl in Hs, Htr.
  split; [now exists t|]. split; [reflexivity|]. split; [exact Hs|].
  split; [now exists evs|].
  rewrite <- Hs in Hslot.
  rewrite group_value_reference with (p := p) by assumption.
  destruct (loader_frame g p st') as (_ & _ & evs' & Hne' & Htr').
  exists evs'. split; [exact Hne'|].
  destruct (loader_of g p st') as [[t'|e'] st'']; exact Htr'.
Qed.

(** The singleton accessor never changes the state: it returns the
    object it holds or raises. *)
Lemma segments_state keep_loaded st :
  snd (segments keep_loaded st) = st.
Proof.
  unfold segments, bind, get_self.
  destruct (_segments (self st)) as [t|]; [reflexivity|].
  destruct (_segments_path (self st)); reflexivity.
Qed.

Lemma segments_materialized keep_loaded t st :
  _segments (self st) = Some t ->
  segments keep_loaded st = (Return t, st).
Proof.
  intros H. unfold segments, bind, get_self. rewrite H. reflexivity.
Qed.

Lemma segments_returns keep_loaded t st st' :
  segments keep_loaded st = (Return t, st') ->
  _segments (self st) = Some t /\ st' = st.
Proof.
  unfold segments, bind, get_self.
  destruct (_segments (self st)) as [t0|].
  - unfold ret. intros H. inversion H. auto.
  - destruct (_segments_path (self st)); discriminate.
Qed.

(** C4 (as the code has it): when the segment slot holds only a path,
    [segments] evaluates [self.segments_path], an attribute the instance
    does not have (the path is stored as [_segments_path]); the call
    raises [AttributeError] before [SegmentSet.load] is reached, and
    nothing is loaded, stored or returned. *)
Theorem segments_reference_raises keep_loaded p st :
  _segments (self st) = None ->
  _segments_path (self st) = Some p ->
  segments keep_loaded st = (Raise (AttributeError "segments_path"), st).
Proof.
  intros H1 H2. unfold segments, bind, get_self. rewrite H1, H2. reflexivity.
Qed.

(** The [try]/[except] of [trials_value], call by call. *)
Lemma load_trials_run p st :
  let first := if sparse_trials (self st) then KSparseTrialKey else KTrialKey in
  load_trials p st =
    match table_load first p NoSep (disk st) with
    | inr data =>
        (Return (mkTable (next_id st) first data),
         mkSt (self st) (disk st) (trace st ++ [EvLoad first p NoSep])
           (S (next_id st)))
    | inl _ =>
        match table_load KTrialNdx p NoSep (disk st) with
        | inr data =>
            (Return (mkTable (next_id st) KTrialNdx data),
             mkSt (self st) (disk st)
               (trace st ++ [EvLoad first p NoSep; EvLoad KTrialNdx p NoSep])
               (S (next_id st)))
        | inl e =>
            (Raise e,
             mkSt (self st) (disk st)
               (trace st ++ [EvLoad first p NoSep; EvLoad KTrialNdx p NoSep])
               (next_id st))
        end
    end.
Proof.
  intros first.
  assert (E : load_trials p st =
              match load_table first p NoSep st with
              | (Return a, st') => (Return a, st')
              | (Raise _, st') => load_table KTrialNdx p NoSep st'
              end).
  { unfold load_trials, try_except, bind, get_self, first.
    destruct (sparse_trials (self st)); reflexivity. }
  rewrite E. clear E. rewrite load_table_run.
  destruct (table_load first p NoSep (disk st)) as [e1|data]; [|reflexivity].
  rewrite load_table_run. unfold log. simpl.
  destruct (table_load KTrialNdx p NoSep (disk st)) as [e2|data2];
    rewrite <- app_assoc; reflexivity.
Qed.

(** C3: materializing a trials entry that holds a reference calls the
    key-form parser first ([SparseTrialKey.load] if [sparse_trials], else
    [TrialKey.load]); if that call raises, [TrialNdx.load] is called once,
    and what it raises is what [trials_value] raises. *)
Theorem trials_value_fallback key p keep_loaded st :
  slot_of GTrials key (self st) = Some (Reference p) ->
  let first := if sparse_trials (self st) then KSparseTrialKey else KTrialKey in
  let r := trials_value key keep_loaded st in
  match table_load first p NoSep (disk st) with
  | inr data =>
      trace (snd r) = trace st ++ [EvLoad first p NoSep]
      /\ fst r = Return (if keep_loaded
                         then Some (mkTable (next_id st) first data)
                         else None)
  | inl _ =>
      trace (snd r)
        = trace st ++ [EvLoad first p NoSep; EvLoad KTrialNdx p NoSep]
      /\ match table_load KTrialNdx p NoSep (disk st) with
         | inr data =>
             fst r = Return (if keep_loaded
                             then Some (mkTable (next_id st) KTrialNdx data)
                             else None)
         | inl e => fst r = Raise e
         end
  end.
Proof.
  intros Hslot first r. subst r.
  change (trials_value key keep_loaded) with (value_of GTrials key keep_loaded).
  rewrite group_value_reference with (p := p) by assumption.
  change (loader_of GTrials p st) with (load_trials p st).
  rewrite load_trials_run. fold first.
  destruct (table_load first p NoSep (disk st)) as [e1|data].
  - destruct (table_load KTrialNdx p NoSep (disk st)) as [e2|data2].
    + simpl. auto.
    + destruct keep_loaded; simpl; auto.
  - destruct keep_loaded; simpl; auto.
Qed.

End Accessors.


(* ================================================================== *)
(** ** Relations that every step of a computation respects *)

Section Respects.
Variables (S : Type) (R : S -> S -> Prop).
Hypothesis R_refl : forall s, R s s.
Hypothesis R_trans : forall a b c, R a b -> R b c -> R a c.

Lemma respects_ret A (a : A) : respects R (ret (S := S) a).
Proof. intros st. apply R_refl. Qed.

Lemma respects_raise A (e : PyErr) : respects R (raise (S := S) (A := A) e).
Proof. intros st. apply R_refl. Qed.

Lemma respects_lift A (r : Res A) : respects R (lift (S := S) r).
Proof. intros st. apply R_refl. Qed.

Lemma respects_assert (b : bool) : respects R (py_assert (S := S) b).
Proof. intros st. destruct b; apply R_refl. Qed.

Lemma respects_bind A B (m : M S A) (k : A -> M S B) :
  respects R m -> (forall a, respects R (k a)) -> respects R (bind m k).
Proof.
  intros Hm Hk st. unfold bind. specialize (Hm st).
  destruct (m st) as [[a|e] st1]; simpl in *; [|exact Hm].
  eapply R_trans; [exact Hm | apply Hk].
Qed.

Lemma respects_try_except A (m h : M S A) :
  respects R m -> respects R h -> respects R (try_except m h).
Proof.
  intros Hm Hh st. unfold try_except. specialize (Hm st).
  destruct (m st) as [[a|e] st1]; simpl in *; [exact Hm|].
  eapply R_trans; [exact Hm | apply Hh].
Qed.

Lemma respects_for_fold A B (l : list A) (body : B -> A -> M S B) (acc : B) :
  (forall acc x, In x l -> respects R (body acc x)) ->
  respects R (for_fold l body acc).
Proof.
  revert acc. induction l as [|x l IH]; intros acc H; simpl.
  - apply respects_ret.
  - apply respects_bind.
    + apply H. now left.
    + intros acc'. apply IH. intros acc0 y Hy. apply H. now right.
Qed.

End Respects.

(** A successful run of [bind] is a successful run of both parts. *)
Lemma bind_returns S A B (m : M S A) (k : A -> M S B) st b st' :
  bind m k st = (Return b, st') ->
  exists a st1, m st = (Return a, st1) /\ k a st1 = (Return b, st').
Proof.
  unfold bind. destruct (m st) as [[a|e] st1]; intros H; [|discriminate].
  now exists a, st1.
Qed.

Lemma respects_run S A (R : S -> S -> Prop) (m : M S A) st r st' :
  respects R m -> m st = (r, st') -> R st st'.
Proof. intros H E. specialize (H st). now rewrite E in H. Qed.

(* ================================================================== *)
(** ** Framing [save] *)

Section SaveFrame.
Context {W : World}.
Variable R : St -> St -> Prop.
Variables (up : bool) (sv : option string).
Hypothesis R_refl : forall s, R s s.
Hypothesis R_trans : forall a b c, R a b -> R b c -> R a c.
Hypothesis R_value : forall g key kl, respects R (value_of g key kl).
Hypothesis R_save :
  forall t p a, a = Sep sv \/ a = NoSep -> respects R (save_table t p a).
Hypothesis R_segpath :
  up = true -> forall v, respects R (modify_self (set__segments_path v)).
Hypothesis R_setpath :
  up = true -> forall g k v, respects R (setitem_path g k v).
Hypothesis R_open : forall p m, respects R (py_open p m).
Hypothesis R_dump : forall doc f, respects R (yaml_dump_to doc f).

Lemma respects_segments kl : respects R (segments kl).
Proof. intros st. rewrite segments_state. apply R_refl. Qed.

Lemma respects_for_items g kl B (body : B -> string -> option Table -> Py B) acc :
  (forall acc k v, respects R (body acc k v)) ->
  respects R (for_items (items_of g kl) body acc).
Proof.
  intros Hb st. unfold for_items, items_of, bind, get_self. cbv beta iota.
  destruct (objects_of g (self st)) as [m|]; unfold ret; cbv beta iota.
  - apply respects_for_fold; trivial.
    intros acc0 x Hx. apply in_map_iff in Hx. destruct Hx as (key & <- & _).
    simpl. apply respects_bind; trivial.
  - simpl. apply R_refl.
Qed.

Lemma respects_save_group g a dir ext :
  a = Sep sv \/ a = NoSep ->
  respects R (save_group g a dir ext up).
Proof.
  intros Ha. unfold save_group. apply respects_for_items.
  intros acc k v. cbv zeta.
  apply respects_bind; trivial.
  - destruct v; simpl; [now apply R_save | now apply respects_raise].
  - intros _. apply respects_bind; trivial.
    destruct up eqn:E; [now apply R_setpath | now apply respects_ret].
Qed.

(** [save] from the point where the effective separator is known and,
    with [update_paths], stored. *)
Lemma respects_save_from path arg st :
  effective_sep arg (self st) = sv ->
  R (if up then with_self (set_table_sep sv (self st)) st else st)
    (snd (save path up arg st)).
Proof.
  intros Hsv. unfold save.
  unfold bind at 1. unfold get_self at 1. cbv beta iota zeta.
  fold (effective_sep arg (self st)). rewrite Hsv.
  unfold bind at 1.
  assert (Hup : forall v, respects R
            (if up then modify_self (set__segments_path v) else ret tt)).
  { intros v. destruct up eqn:E; [now apply R_segpath | now apply respects_ret]. }
  match goal with
  | |- context [ let (_, _) := ?m st in _ ] =>
      destruct (m st) as [r0 st1] eqn:E
  end.
  assert (E' : r0 = Return tt
               /\ st1 = if up then with_self (set_table_sep sv (self st)) st
                        else st).
  { clear - E. destruct up; inversion E; auto. }
  destruct E' as [-> ->]. clear E.
  generalize (if up then with_self (set_table_sep sv (self st)) st else st).
  clear Hsv st. intros st.
  all: apply respects_bind; trivial; [apply respects_segments | intros segs].
  all: apply respects_bind; trivial; [apply R_save; now left | intros _].
  all: apply respects_bind; trivial; try apply Hup; intros _.
  all: apply respects_bind; trivial;
         [apply respects_save_group; now left | intros fn1].
  all: apply respects_bind; trivial;
         [apply respects_save_group; now left | intros fn2].
  all: apply respects_bind; trivial;
         [apply respects_save_group; now left | intros fn3].
  all: apply respects_bind; trivial;
         [apply respects_save_group; now left | intros fn4].
  all: apply respects_bind; trivial;
         [apply respects_save_group; now right | intros fn5].
  all: apply respects_bind; trivial.
Qed.

End SaveFrame.

(* ================================================================== *)
(** ** What the steps of [save] change *)

Section Effects.
Context {W : World}.

Lemma value_of_cases g key kl st :
  snd (value_of g key kl st) = st
  \/ exists p, slot_of g key (self st) = Some (Reference p).
Proof.
  destruct (slot_of g key (self st)) as [[t|p|]|] eqn:Es.
  - left. now rewrite group_value_materialized with (t := t).
  - right. now exists p.
  - left. rewrite value_of_unfold. unfold slot_of in Es.
    unfold group_value, bind, get_self, getitem, raise, ret.
    destruct (objects_of g (self st)) as [objs|]; [|discriminate].
    destruct (dict_get objs key) as [[t0|]|]; try discriminate.
    destruct (paths_of g (self st)) as [paths|]; [|reflexivity].
    destruct (dict_get paths key) as [[p0|]|]; try discriminate; reflexivity.
  - left. rewrite value_of_unfold. unfold slot_of in Es.
    unfold group_value, bind, get_self, getitem, raise, ret.
    destruct (objects_of g (self st)) as [objs|]; [|reflexivity].
    destruct (dict_get objs key) as [[t0|]|]; try discriminate; try reflexivity.
    destruct (paths_of g (self st)) as [paths|]; [|discriminate].
    destruct (dict_get paths key) as [[p0|]|]; discriminate.
Qed.

Lemma loader_events g p st :
  exists evs,
    trace (snd (loader_of g p st)) = trace st ++ evs
    /\ forall ssep, Forall (event_ok (table_sep (self st)) ssep) evs.
Proof.
  assert (S1 : forall k, is_trial_kind k = false ->
             exists evs,
               trace (snd (load_with_sep k p st)) = trace st ++ evs
               /\ forall ssep, Forall (event_ok (table_sep (self st)) ssep) evs).
  { intros k Hk. unfold load_with_sep, bind, get_self.
    destruct (load_table_frame k p (Sep (table_sep (self st))) st) as (_ & _ & C).
    eexists; split; [exact C|]. intros ssep. constructor; [|constructor].
    simpl. now rewrite Hk. }
  destruct g; try (apply S1; reflexivity).
  unfold loader_of, load_trials, try_except, bind, get_self.
  assert (S2 : forall k, is_trial_kind k = true ->
             let r := (let (r, st') := load_table k p NoSep st in
                       match r with
                       | Return a => (Return a, st')
                       | Raise _ => load_table KTrialNdx p NoSep st'
                       end) in
             exists evs,
               trace (snd r) = trace st ++ evs
               /\ forall ssep, Forall (event_ok (table_sep (self st)) ssep) evs).
  { intros k Hk.
    destruct (load_table_frame k p NoSep st) as (_ & _ & C).
    destruct (load_table k p NoSep st) as [[t|e] st1] eqn:E1; simpl in *.
    - eexists; split; [exact C|]. intros ssep. constructor; [|constructor].
      simpl. now rewrite Hk.
    - destruct (load_table_frame KTrialNdx p NoSep st1) as (_ & _ & C').
      exists [EvLoad k p NoSep; EvLoad KTrialNdx p NoSep]. split.
      + rewrite C', C. now rewrite <- app_assoc.
      + intros ssep. repeat constructor. simpl. now rewrite Hk. }
  destruct (sparse_trials (self st)); apply S2; reflexivity.
Qed.

Lemma bookkeeping_store_object g key t d :
  bookkeeping (store_object g key t d) = bookkeeping d.
Proof.
  unfold store_object. destruct (objects_of g d); [|reflexivity].
  destruct g; reflexivity.
Qed.

Lemma table_sep_store_object g key t d :
  table_sep (store_object g key t d) = table_sep d.
Proof.
  unfold store_object. destruct (objects_of g d); [|reflexivity].
  destruct g; reflexivity.
Qed.

Lemma group_keys_store_object g g' key t p d :
  slot_of g key d = Some (Reference p) ->
  group_keys g' (store_object g key t d) = group_keys g' d.
Proof.
  unfold slot_of, store_object, group_keys.
  destruct (objects_of g d) as [objs|] eqn:Eo; [|discriminate].
  destruct (dict_get objs key) as [x|] eqn:Ek; [|discriminate].
  intros _.
  destruct g, g'; simpl in *; try reflexivity;
    rewrite Eo; eapply dict_keys_set_present; eassumption.
Qed.

(** An accessor leaves the path bookkeeping, the separator and the keys
    alone, and calls the collaborators with the stored separator. *)
Lemma value_of_effect g key kl st :
  bookkeeping (self (snd (value_of g key kl st))) = bookkeeping (self st)
  /\ table_sep (self (snd (value_of g key kl st))) = table_sep (self st)
  /\ (forall g', group_keys g' (self (snd (value_of g key kl st)))
                 = group_keys g' (self st))
  /\ exists evs,
       trace (snd (value_of g key kl st)) = trace st ++ evs
       /\ forall ssep, Forall (event_ok (table_sep (self st)) ssep) evs.
Proof.
  destruct (value_of_cases g key kl st) as [E | [p Hp]].
  - rewrite E. repeat split; trivial.
    exists []. split; [now rewrite app_nil_r | constructor].
  - rewrite group_value_reference with (p := p) by assumption.
    destruct (loader_frame g p st) as (Hs & _ & _).
    destruct (loader_events g p st) as (evs & Htr & Hev).
    destruct (loader_of g p st) as [[t|e] st1]; simpl in Hs, Htr.
    + destruct kl; simpl.
      * rewrite bookkeeping_store_object, table_sep_store_object.
        repeat split; trivial.
        -- intros g'. now apply group_keys_store_object with (p := p).
        -- now exists evs.
      * rewrite Hs. repeat split; trivial. now exists evs.
    + simpl. rewrite Hs. repeat split; trivial. now exists evs.
Qed.

Lemma save_table_effect t p a st :
  self (snd (save_table t p a st)) = self st
  /\ trace (snd (save_table t p a st)) = trace st ++ [EvSave t p a].
Proof.
  unfold save_table.
  destruct (table_save (tbl_kind t) (tbl_data t) p a (disk st)); simpl; auto.
Qed.

Lemma py_open_effect p m st :
  self (snd (py_open p m st)) = self st
  /\ trace (snd (py_open p m st)) = trace st ++ [EvOpen p m].
Proof.
  unfold py_open. destruct m; simpl; auto.
  destruct (open_w p (disk st)); simpl; auto.
Qed.

Lemma yaml_dump_to_effect doc f st :
  self (snd (yaml_dump_to doc f st)) = self st
  /\ exists evs,
       trace (snd (yaml_dump_to doc f st)) = trace st ++ evs
       /\ (evs = [] \/ evs = [EvYamlDump doc (fst f)]).
Proof.
  unfold yaml_dump_to. destruct (snd f); simpl.
  - split; trivial. exists []. rewrite app_nil_r. auto.
  - destruct (yaml_dump doc (fst f) (disk st)); simpl; split; trivial;
      eexists; split; eauto.
Qed.

Lemma setitem_path_effect g k v st :
  trace (snd (setitem_path g k v st)) = trace st
  /\ table_sep (self (snd (setitem_path g k v st))) = table_sep (self st)
  /\ forall g', objects_of g' (self (snd (setitem_path g k v st)))
                = objects_of g' (self st).
Proof.
  unfold setitem_path, bind, get_self, modify_self, raise.
  destruct (paths_of g (self st)); simpl; auto.
  repeat split; destruct g; try reflexivity; intros g'; destruct g'; reflexivity.
Qed.

End Effects.

(* ================================================================== *)
(** ** Properties of [save] *)

Section Saving.
Context {W : World}.

Lemma same_keys_refl st : same_keys st st.
Proof. intros g. reflexivity. Qed.

Lemma same_keys_trans a b c : same_keys a b -> same_keys b c -> same_keys a c.
Proof. intros H1 H2 g. now rewrite H2, H1. Qed.

Lemma same_keys_objects st st' :
  (forall g, objects_of g (self st') = objects_of g (self st)) ->
  same_keys st st'.
Proof. intros H g. unfold group_keys. now rewrite H. Qed.

Lemma same_keys_self st st' : self st' = self st -> same_keys st st'.
Proof. intros H. apply same_keys_objects. intros g. now rewrite H. Qed.

Lemma same_keys_value g key kl : respects same_keys (value_of g key kl).
Proof.
  intros st. destruct (value_of_effect g key kl st) as (_ & _ & H & _). exact H.
Qed.

Lemma same_keys_save_table t p a : respects same_keys (save_table t p a).
Proof.
  intros st. apply same_keys_self. now destruct (save_table_effect t p a st).
Qed.

Lemma same_keys_setitem_path g k v : respects same_keys (setitem_path g k v).
Proof.
  intros st. apply same_keys_objects.
  now destruct (setitem_path_effect g k v st) as (_ & _ & H).
Qed.

Lemma same_keys_set_segments_path v :
  respects same_keys (modify_self (set__segments_path v)).
Proof.
  intros st. apply same_keys_objects. intros g. destruct g; reflexivity.
Qed.

Lemma same_keys_save_group g a dir ext up :
  respects same_keys (save_group g a dir ext up).
Proof.
  destruct a as [|s].
  - apply respects_save_group with (sv := None); auto using same_keys_refl,
      same_keys_value, same_keys_save_table, same_keys_setitem_path,
      same_keys_set_segments_path.
    apply same_keys_trans.
  - apply respects_save_group with (sv := s); auto using same_keys_refl,
      same_keys_value, same_keys_save_table, same_keys_setitem_path,
      same_keys_set_segments_path.
    apply same_keys_trans.
Qed.

Lemma same_keys_save path up arg st :
  same_keys st (snd (save path up arg st)).
Proof.
  apply same_keys_trans
    with (b := if up then with_self (set_table_sep (effective_sep arg (self st))
                                       (self st)) st
               else st).
  { destruct up; [|apply same_keys_refl].
    apply same_keys_objects. intros g. destruct g; reflexivity. }
  apply respects_save_from with (R := same_keys)
                                (sv := effective_sep arg (self st));
    auto using same_keys_refl, same_keys_value, same_keys_save_table,
      same_keys_setitem_path, same_keys_set_segments_path.
  - apply same_keys_trans.
  - intros p m st0. apply same_keys_self. now destruct (py_open_effect p m st0).
  - intros doc f st0. apply same_keys_self.
    now destruct (yaml_dump_to_effect doc f st0).
Qed.

Lemma same_bookkeeping_refl st : same_bookkeeping st st.
Proof. split; reflexivity. Qed.

Lemma same_bookkeeping_trans a b c :
  same_bookkeeping a b -> same_bookkeeping b c -> same_bookkeeping a c.
Proof. intros [H1 H1'] [H2 H2']. split; congruence. Qed.

Lemma same_bookkeeping_self st st' :
  self st' = self st -> same_bookkeeping st st'.
Proof. intros H. split; now rewrite H. Qed.

Lemma extends_refl st : extends st st.
Proof. exists (@nil IOEvent). now rewrite app_nil_r. Qed.

Lemma extends_trans a b c : extends a b -> extends b c -> extends a c.
Proof.
  intros [e1 H1] [e2 H2]. exists (e1 ++ e2). now rewrite H2, H1, app_assoc.
Qed.

Lemma extends_trace st st' : trace st' = trace st -> extends st st'.
Proof. intros H. exists (@nil IOEvent). now rewrite app_nil_r. Qed.

Lemma extends_value g key kl : respects extends (value_of g key kl).
Proof.
  intros st.
  destruct (value_of_effect g key kl st) as (_ & _ & _ & evs & H & _).
  now exists evs.
Qed.

Lemma extends_save_table t p a : respects extends (save_table t p a).
Proof.
  intros st. destruct (save_table_effect t p a st) as [_ H]. eexists; exact H.
Qed.

Lemma extends_setitem_path g k v : respects extends (setitem_path g k v).
Proof.
  intros st. apply extends_trace. now destruct (setitem_path_effect g k v st).
Qed.

Lemma extends_set_segments_path v :
  respects extends (modify_self (set__segments_path v)).
Proof. intros st. apply extends_trace. reflexivity. Qed.

Lemma extends_save_group g a dir ext up :
  respects extends (save_group g a dir ext up).
Proof.
  destruct a as [|s].
  - apply respects_save_group with (sv := None); auto using extends_refl,
      extends_value, extends_save_table, extends_setitem_path,
      extends_set_segments_path.
    apply extends_trans.
  - apply respects_save_group with (sv := s); auto using extends_refl,
      extends_value, extends_save_table, extends_setitem_path,
      extends_set_segments_path.
    apply extends_trans.
Qed.

Lemma sep_discipline_refl l s st : sep_discipline l s st st.
Proof.
  intros H. split; trivial. exists (@nil IOEvent). split; [now rewrite app_nil_r|constructor].
Qed.

Lemma sep_discipline_trans l s a b c :
  sep_discipline l s a b -> sep_discipline l s b c -> sep_discipline l s a c.
Proof.
  intros H1 H2 Ha. destruct (H1 Ha) as (Hb & e1 & T1 & F1).
  destruct (H2 Hb) as (Hc & e2 & T2 & F2). split; trivial.
  exists (e1 ++ e2). split.
  - now rewrite T2, T1, app_assoc.
  - apply Forall_app. now split.
Qed.

Lemma sep_discipline_silent l s st st' :
  table_sep (self st') = table_sep (self st) ->
  trace st' = trace st ->
  sep_discipline l s st st'.
Proof.
  intros H1 H2 Ha. split; [congruence|].
  exists (@nil IOEvent). split; [now rewrite app_nil_r|constructor].
Qed.

(** From the point where the separator [ssep] of the call is known and,
    with [update_paths], stored: the stored separator does not change
    any more, every load gets the stored one and every save [ssep]. *)
Lemma sep_discipline_save_from path (up : bool) arg st :
  sep_discipline
    (if up then effective_sep arg (self st) else table_sep (self st))
    (effective_sep arg (self st))
    (if up then with_self (set_table_sep (effective_sep arg (self st)) (self st)) st
     else st)
    (snd (save path up arg st)).
Proof.
  apply respects_save_from.
  - apply sep_discipline_refl.
  - apply sep_discipline_trans.
  - intros g key kl st0 Ha.
    destruct (value_of_effect g key kl st0) as (_ & Hs & _ & evs & H & F).
    split; [congruence|]. exists evs. split; trivial.
    rewrite <- Ha. apply F.
  - intros t p a Hsep st0 Ha.
    destruct (save_table_effect t p a st0) as [Hs H].
    split; [now rewrite Hs|]. eexists. split; [exact H|].
    constructor; [exact Hsep | constructor].
  - intros _ v st0. now apply sep_discipline_silent.
  - intros _ g k v st0.
    destruct (setitem_path_effect g k v st0) as (H1 & H2 & _).
    now apply sep_discipline_silent.
  - intros p m st0 Ha. destruct (py_open_effect p m st0) as [Hs H].
    split; [now rewrite Hs|]. eexists. split; [exact H|].
    constructor; [exact I | constructor].
  - intros doc f st0 Ha.
    destruct (yaml_dump_to_effect doc f st0) as (Hs & evs & H & Hev).
    split; [now rewrite Hs|]. exists evs. split; trivial.
    destruct Hev as [-> | ->]; repeat constructor.
  - reflexivity.
Qed.

(** The file names that a loop of [save] returns. *)
Lemma save_group_returns g a dir ext up st fn st' :
  save_group g a dir ext up st = (Return fn, st') ->
  fn = names_of (group_keys g (self st)) ext [].
Proof.
  unfold save_group, for_items, items_of, group_keys.
  intros H. apply bind_returns in H as (items & s1 & H1 & H2).
  apply bind_returns in H1 as (d & s0 & H0 & H1).
  unfold get_self in H0. inversion H0; subst d s0; clear H0.
  destruct (objects_of g (self st)) as [m|]; unfold ret in H1;
    inversion H1; subst items s1; clear H1.
  - revert H2. generalize (@nil (string * string)). generalize st.
    induction (dict_keys m) as [|k keys IH]; intros s acc H; simpl in H.
    + inversion H. reflexivity.
    + apply bind_returns in H as (acc' & s' & Hb & H).
      apply IH in H. subst fn. simpl.
      apply bind_returns in Hb as (v & s2 & _ & Hb). simpl in Hb.
      apply bind_returns in Hb as (? & ? & _ & Hb).
      apply bind_returns in Hb as (? & ? & _ & Hb).
      unfold ret in Hb. inversion Hb. reflexivity.
  - simpl in H2. inversion H2. reflexivity.
Qed.

Lemma save_group_run g a dir ext up st fn st' :
  save_group g a dir ext up st = (Return fn, st') ->
  fn = names_of (group_keys g (self st)) ext []
  /\ same_keys st st' /\ extends st st'.
Proof.
  intros H. split; [eapply save_group_returns; eassumption|].
  pose proof (same_keys_save_group g a dir ext up st) as K.
  pose proof (extends_save_group g a dir ext up st) as E.
  rewrite H in K, E. auto.
Qed.

Lemma save_table_returns t p a st st' :
  save_table t p a st = (Return tt, st') ->
  self st' = self st /\ trace st' = trace st ++ [EvSave t p a].
Proof.
  intros H. destruct (save_table_effect t p a st) as [H1 H2].
  rewrite H in H1, H2. auto.
Qed.

(** A call of [save] that returns: the segment table was in memory, its
    file is the first to be written, and the manifest, opened and dumped
    last, is [manifest_of] the instance. *)
Lemma save_returns path up arg st st' :
  save path up arg st = (Return tt, st') ->
  exists segs evs,
    _segments (self st) = Some segs
    /\ trace st' =
         trace st
         ++ [EvSave segs
               (path_join_str (fst (resolve_dataset_path path))
                  ("segments" ++ ext_of (effective_sep arg (self st)))%string)
               (Sep (effective_sep arg (self st)))]
         ++ evs
         ++ [EvOpen (snd (resolve_dataset_path path)) ModeW;
             EvYamlDump
               (YMap (manifest_of (self st) (ext_of (effective_sep arg (self st)))))
               (snd (resolve_dataset_path path))].
Proof.
  intros H. unfold save in H.
  apply bind_returns in H as (d & s0 & H0 & H).
  unfold get_self in H0. inversion H0; subst d s0; clear H0.
  fold (effective_sep arg (self st)) in H.
  set (sv := effective_sep arg (self st)) in *.
  fold (ext_of sv) in H. set (ext := ext_of sv) in *.
  apply bind_returns in H as (u1 & s1 & H1 & H).
  assert (K1 : same_keys st s1 /\ trace s1 = trace st
               /\ _segments (self s1) = _segments (self st)).
  { destruct up; inversion H1; subst; repeat split; try reflexivity.
    apply same_keys_objects. intros g. destruct g; reflexivity. }
  destruct K1 as (K1 & T1 & G1). clear H1.
  apply bind_returns in H as (segs & s2 & H2 & H).
  apply segments_returns in H2 as [Hseg ->]. rewrite G1 in Hseg.
  apply bind_returns in H as (u3 & s3 & H3 & H).
  destruct u3. apply save_table_returns in H3 as [S3 T3].
  apply bind_returns in H as (u4 & s4 & H4 & H).
  assert (K4 : same_keys s3 s4 /\ trace s4 = trace s3).
  { destruct up; inversion H4; subst; split; try reflexivity;
      try apply same_keys_refl.
    apply same_keys_objects. intros g. destruct g; reflexivity. }
  destruct K4 as (K4 & T4). clear H4.
  assert (K : same_keys st s4).
  { eapply same_keys_trans; [|exact K4].
    eapply same_keys_trans; [exact K1|]. now apply same_keys_self. }
  clear K1 K4.
  apply bind_returns in H as (fn1 & s5 & H5 & H).
  apply save_group_run in H5 as (F1 & K5 & [e5 E5]).
  apply bind_returns in H as (fn2 & s6 & H6 & H).
  apply save_group_run in H6 as (F2 & K6 & [e6 E6]).
  apply bind_returns in H as (fn3 & s7 & H7 & H).
  apply save_group_run in H7 as (F3 & K7 & [e7 E7]).
  apply bind_returns in H as (fn4 & s8 & H8 & H).
  apply save_group_run in H8 as (F4 & K8 & [e8 E8]).
  apply bind_returns in H as (fn5 & s9 & H9 & H).
  apply save_group_run in H9 as (F5 & K9 & [e9 E9]).
  apply bind_returns in H as (f & s10 & H10 & H).
  assert (O : f = (snd (resolve_dataset_path path), ModeW)
              /\ trace s10 = trace s9 ++ [EvOpen (snd (resolve_dataset_path path)) ModeW]).
  { unfold py_open in H10.
    destruct (open_w (snd (resolve_dataset_path path)) (disk s9));
      inversion H10; subst; auto. }
  destruct O as [-> T10]. clear H10.
  assert (D : trace st' = trace s10 ++
                [EvYamlDump
                   (YMap (add_group (add_group (add_group (add_group (add_group
                      (dict_set [] "segments" (YStr ("segments" ++ ext)%string))
                      "recordings" fn1) "features" fn2) "classes" fn3)
                      "enrollments" fn4) "trials" fn5))
                   (snd (resolve_dataset_path path))]).
  { unfold yaml_dump_to in H. simpl in H.
    match type of H with
    | context [ yaml_dump ?a ?b ?c ] => destruct (yaml_dump a b c)
    end; inversion H; subst; reflexivity. }
  clear H.
  rewrite F1, F2, F3, F4, F5 in D.
  rewrite (K GRecordings) in D.
  rewrite (K5 GFeatures), (K GFeatures) in D.
  rewrite (K6 GClasses), (K5 GClasses), (K GClasses) in D.
  rewrite (K7 GEnrollments), (K6 GEnrollments), (K5 GEnrollments),
    (K GEnrollments) in D.
  rewrite (K8 GTrials), (K7 GTrials), (K6 GTrials), (K5 GTrials),
    (K GTrials) in D.
  exists segs, (e5 ++ e6 ++ e7 ++ e8 ++ e9). split; [exact Hseg|].
  rewrite D, T10, E9, E8, E7, E6, E5, T4, T3, T1.
  unfold manifest_of. rewrite <- !app_assoc. reflexivity.
Qed.

Lemma names_of_not_nil keys ext acc :
  acc <> [] -> names_of keys ext acc <> [].
Proof.
  revert acc. induction keys as [|k keys IH]; intros acc H; simpl; trivial.
  apply IH. apply dict_set_not_nil.
Qed.

Lemma names_of_cons_not_nil k keys ext :
  names_of (k :: keys) ext [] <> [].
Proof. simpl. apply names_of_not_nil. discriminate. Qed.

Lemma dict_get_add_group dataset n fn n' :
  dict_get (add_group dataset n fn) n' =
    match fn with
    | [] => dict_get dataset n'
    | _ :: _ =>
        if String.eqb n n' then Some (yaml_of_names fn) else dict_get dataset n'
    end.
Proof.
  destruct fn as [|x fn]; [reflexivity|]. unfold add_group.
  destruct (String.eqb n n') eqn:E.
  - apply String.eqb_eq in E. subst. apply dict_get_set_same.
  - apply String.eqb_neq in E. now apply dict_get_set_other.
Qed.

(** The entry of a group in the manifest that [save] builds. *)
Lemma manifest_of_group d ext g :
  dict_get (manifest_of d ext) (group_name g) =
    match group_keys g d with
    | [] => None
    | _ :: _ => Some (yaml_of_names (names_of (group_keys g d) ext []))
    end.
Proof.
  unfold manifest_of. cbv zeta. rewrite !dict_get_add_group.
  assert (N : forall keys,
             match names_of keys ext [] with
             | [] => keys = []
             | _ :: _ => keys <> []
             end).
  { intros [|k keys].
    - reflexivity.
    - pose proof (@names_of_cons_not_nil k keys ext).
      destruct (names_of (k :: keys) ext []); [contradiction|discriminate]. }
  pose proof (N (group_keys GRecordings d)) as N1.
  pose proof (N (group_keys GFeatures d)) as N2.
  pose proof (N (group_keys GClasses d)) as N3.
  pose proof (N (group_keys GEnrollments d)) as N4.
  pose proof (N (group_keys GTrials d)) as N5.
  destruct g; simpl group_name; simpl String.eqb;
    destruct (names_of (group_keys GRecordings d) ext []) eqn:E1;
    destruct (names_of (group_keys GFeatures d) ext []) eqn:E2;
    destruct (names_of (group_keys GClasses d) ext []) eqn:E3;
    destruct (names_of (group_keys GEnrollments d) ext []) eqn:E4;
    destruct (names_of (group_keys GTrials d) ext []) eqn:E5;
    rewrite ?N1, ?N2, ?N3, ?N4, ?N5; try reflexivity;
    match goal with
    | |- _ = match ?ks with [] => _ | _ :: _ => _ end =>
        destruct ks; [congruence | reflexivity]
    end.
Qed.

(** C6 (amended): the manifest that a returning [save] writes has an
    entry for a group exactly when the group has at least one key; the
    entry maps every key to its file name.  A group that was never
    configured and a group that is configured but empty are both left
    out. *)
Theorem save_manifest_groups path up arg st st' g :
  save path up arg st = (Return tt, st') ->
  exists doc,
    written_manifest st' = Some doc
    /\ dict_get doc (group_name g) =
         match group_keys g (self st) with
         | [] => None
         | _ :: _ =>
             Some (yaml_of_names
                     (names_of (group_keys g (self st))
                        (ext_of (effective_sep arg (self st))) []))
         end
    /\ omitted g st' = match group_keys g (self st) with
                       | [] => true
                       | _ :: _ => false
                       end.
Proof.
  intros H. apply save_returns in H as (segs & evs & _ & T).
  exists (manifest_of (self st) (ext_of (effective_sep arg (self st)))).
  assert (Wm : written_manifest st'
               = Some (manifest_of (self st) (ext_of (effective_sep arg (self st))))).
  { unfold written_manifest. rewrite T.
    rewrite !rev_app_distr. reflexivity. }
  split; [exact Wm|]. split; [apply manifest_of_group|].
  unfold omitted. rewrite Wm. unfold dict_mem. rewrite manifest_of_group.
  destruct (group_keys g (self st)); reflexivity.
Qed.

Lemma same_bookkeeping_save path arg st :
  same_bookkeeping st (snd (save path false arg st)).
Proof.
  apply (@respects_save_from _ same_bookkeeping false
           (effective_sep arg (self st))).
  - apply same_bookkeeping_refl.
  - apply same_bookkeeping_trans.
  - intros g key kl st0.
    destruct (value_of_effect g key kl st0) as (H1 & H2 & _). now split.
  - intros t p a _ st0. apply same_bookkeeping_self.
    now destruct (save_table_effect t p a st0).
  - discriminate.
  - discriminate.
  - intros p m st0. apply same_bookkeeping_self.
    now destruct (py_open_effect p m st0).
  - intros doc f st0. apply same_bookkeeping_self.
    now destruct (yaml_dump_to_effect doc f st0).
  - reflexivity.
Qed.

(** C9: a call of [save] with [update_paths = false] leaves the segment
    path and the key-to-path mapping of every group as they were,
    whether it returns or raises; when it returns, the segment table has
    been written to [segments] plus the extension and the manifest has
    been opened and dumped. *)
Theorem save_without_update_keeps_paths path arg st :
  bookkeeping (self (snd (save path false arg st))) = bookkeeping (self st)
  /\ (fst (save path false arg st) = Return tt ->
      exists segs evs doc,
        trace (snd (save path false arg st)) =
          trace st
          ++ [EvSave segs
                (path_join_str (fst (resolve_dataset_path path))
                   ("segments" ++ ext_of (effective_sep arg (self st)))%string)
                (Sep (effective_sep arg (self st)))]
          ++ evs
          ++ [EvOpen (snd (resolve_dataset_path path)) ModeW;
              EvYamlDump (YMap doc) (snd (resolve_dataset_path path))]).
Proof.
  split.
  - now destruct (same_bookkeeping_save path arg st).
  - intros H.
    destruct (save path false arg st) as [r st'] eqn:E. simpl in H. subst r.
    apply save_returns in E as (segs & evs & _ & T).
    exists segs, evs. eexists. exact T.
Qed.


End Saving.

(* ================================================================== *)
(** ** Properties of [load] *)

Section Loading.
Context {W : World}.

(** [load] opens the manifest for writing and then tries to read it. *)
Lemma load_run path lazy sparse st :
  load path lazy sparse st =
    match open_w (snd (resolve_dataset_path path)) (disk st) with
    | inl e =>
        (Raise e, log (EvOpen (snd (resolve_dataset_path path)) ModeW) st)
    | inr dk =>
        (Raise (UnsupportedOperation "not readable"),
         mkSt (self st) dk
           (trace st ++ [EvOpen (snd (resolve_dataset_path path)) ModeW])
           (next_id st))
    end.
Proof.
  unfold load, bind, py_open.
  destruct (open_w (snd (resolve_dataset_path path)) (disk st)); reflexivity.
Qed.

(** The check of the mandatory key, had the document been parsed. *)
Lemma load_document_missing_segments dir m lazy sparse st :
  dict_mem m "segments" = false ->
  load_document dir (YMap m) lazy sparse st = (Raise AssertionError, st).
Proof.
  intros H. unfold load_document, bind, lift. simpl. rewrite H. reflexivity.
Qed.

(** A document with the mandatory key: its value is a string of the
    manifest, on which [resolve_file_path] calls [is_file]. *)
Lemma load_document_with_segments dir m lazy sparse st :
  dict_mem m "segments" = true ->
  load_document dir (YMap m) lazy sparse st
    = (Raise (AttributeError "is_file"), st).
Proof.
  intros H. unfold load_document, bind, lift. simpl. rewrite H. simpl.
  unfold dict_mem in H.
  destruct (dict_get m "segments"); [reflexivity | discriminate].
Qed.

Lemma load_document_raises dir doc lazy sparse st :
  exists e, load_document dir doc lazy sparse st = (Raise e, st).
Proof.
  destruct doc as [| b | n | s | l | m];
    try (eexists; reflexivity).
  - unfold load_document, bind, lift. simpl.
    destruct (is_some (index 0 "segments" s)); eexists; reflexivity.
  - unfold load_document, bind, lift. simpl.
    match goal with
    | |- context [ existsb ?f l ] => destruct (existsb f l)
    end; eexists; reflexivity.
  - destruct (dict_mem m "segments") eqn:E.
    + eexists. now apply load_document_with_segments.
    + eexists. now apply load_document_missing_segments.
Qed.

(** A group block of [load] on a group that is a mapping with at least
    one key: the loop takes the key itself for the pair [(k, v)]. *)
Lemma load_group_mapping_raises dir m group_name k v rest st :
  dict_get m group_name = Some (YMap ((k, v) :: rest)) ->
  exists e, load_group dir (YMap m) group_name st = (Raise e, st)
            /\ (e = ValueError "wrong number of values to unpack"
                \/ e = AttributeError "is_file").
Proof.
  intros H. unfold load_group, bind, lift. simpl.
  unfold dict_mem. rewrite H. simpl.
  destruct (unpack2 (YStr k)) as [[a b]|e] eqn:E.
  - eexists. split; [reflexivity | now right].
  - exists e. split; [reflexivity|]. left.
    unfold unpack2 in E. simpl in E.
    destruct (chars_of k) as [|c1 [|c2 [|c3 cs]]]; inversion E; reflexivity.
Qed.

(** C2 (as the code has it): on a manifest that parses to a mapping
    without [segments] and can be opened for writing, [load] raises the
    [UnsupportedOperation] of reading a write-only handle, after [open]
    has truncated the file; the check [assert "segments" in dataset],
    which on the parsed document raises [AssertionError] before any
    table is touched, is never reached. *)
Theorem load_missing_segments path lazy sparse st m dk :
  yaml_read (snd (resolve_dataset_path path)) (disk st) = inr (YMap m) ->
  dict_mem m "segments" = false ->
  open_w (snd (resolve_dataset_path path)) (disk st) = inr dk ->
  load path lazy sparse st
    = (Raise (UnsupportedOperation "not readable"),
       mkSt (self st) dk
         (trace st ++ [EvOpen (snd (resolve_dataset_path path)) ModeW])
         (next_id st))
  /\ load_document (fst (resolve_dataset_path path)) (YMap m) lazy sparse st
     = (Raise AssertionError, st).
Proof.
  intros _ Hm Ho. split.
  - rewrite load_run, Ho. reflexivity.
  - now apply load_document_missing_segments.
Qed.

(** C7 (as the code has it): [load] never builds a registry.  It raises
    at [open] or at [yaml.safe_load]; and from the parsed document on,
    every document makes it raise as well, a mapping with [segments] at
    [resolve_file_path], which calls [is_file] on the string of the
    manifest, before any group is looked at. *)
Theorem load_builds_no_registry path lazy sparse st :
  (exists e st', load path lazy sparse st = (Raise e, st'))
  /\ (forall dir doc,
        exists e, load_document dir doc lazy sparse st = (Raise e, st))
  /\ (forall dir m,
        dict_mem m "segments" = true ->
        load_document dir (YMap m) lazy sparse st
          = (Raise (AttributeError "is_file"), st)).
Proof.
  split; [|split].
  - rewrite load_run.
    destruct (open_w (snd (resolve_dataset_path path)) (disk st));
      eexists; eexists; reflexivity.
  - intros dir doc. apply load_document_raises.
  - intros dir m. apply load_document_with_segments.
Qed.

End Loading.

(* ================================================================== *)
(** ** The properties on the small file system *)

Lemma accessor_no_cache_returns_none_witness :
  slot_of (W := demo_world) GRecordings "wav" (self demo_st)
    = Some (Reference (parse_path "data/wav.csv"))
  /\ fst (value_of (W := demo_world) GRecordings "wav" false demo_st)
     = Return None
  /\ self (snd (value_of (W := demo_world) GRecordings "wav" false demo_st))
     = self demo_st.
Proof.
  split; [reflexivity|].
  destruct (@accessor_no_cache_returns_none demo_world GRecordings "wav"
              (parse_path "data/wav.csv") demo_st None
              (snd (value_of (W := demo_world) GRecordings "wav" false demo_st))
              eq_refl eq_refl)
    as (_ & _ & Hself & _).
  split; [reflexivity | exact Hself].
Defined.

Lemma accessor_keep_loaded_idempotent_witness :
  slot_of (W := demo_world) GRecordings "wav" (self demo_st)
    = Some (Reference (parse_path "data/wav.csv"))
  /\ exists t evs,
       fst (value_of (W := demo_world) GRecordings "wav" true demo_st)
         = Return (Some t)
       /\ evs <> []
       /\ trace (snd (value_of (W := demo_world) GRecordings "wav" true demo_st))
          = trace demo_st ++ evs
       /\ value_of (W := demo_world) GRecordings "wav" true
            (snd (value_of (W := demo_world) GRecordings "wav" true demo_st))
          = (Return (Some t),
             snd (value_of (W := demo_world) GRecordings "wav" true demo_st)).
Proof.
  split; [reflexivity|].
  destruct (@accessor_keep_loaded_idempotent demo_world GRecordings "wav"
              (parse_path "data/wav.csv") demo_st
              (Some (mkTable (W := demo_world) 1 KRecordingSet ["rec1"; "rec2"]))
              (snd (value_of (W := demo_world) GRecordings "wav" true demo_st))
              eq_refl eq_refl)
    as (t & evs & Hr & _ & Hne & Htr & _ & Hsecond).
  exists t, evs. split; [rewrite <- Hr; reflexivity|].
  split; [exact Hne|]. split; [exact Htr | exact Hsecond].
Defined.

Lemma trials_value_fallback_witness :
  slot_of (W := demo_world) GTrials "eval" (self demo_st)
    = Some (Reference (parse_path "data/eval.ndx"))
  /\ trace (snd (trials_value (W := demo_world) "eval" true demo_st))
     = [EvLoad (W := demo_world) KTrialKey (parse_path "data/eval.ndx") NoSep;
        EvLoad (W := demo_world) KTrialNdx (parse_path "data/eval.ndx") NoSep]
  /\ fst (trials_value (W := demo_world) "eval" true demo_st)
     = Return (Some (mkTable (W := demo_world) 1 KTrialNdx ["trial1"])).
Proof.
  split; [reflexivity|].
  exact (@trials_value_fallback demo_world "eval" (parse_path "data/eval.ndx")
           true demo_st eq_refl).
Defined.

Lemma segments_reference_raises_witness :
  _segments (demo_unloaded) = None
  /\ _segments_path (demo_unloaded) = Some (parse_path "data/segments.csv")
  /\ segments (W := demo_world) true (demo_state demo_unloaded demo_disk)
     = (Raise (AttributeError "segments_path"),
        demo_state demo_unloaded demo_disk).
Proof.
  split; [reflexivity|]. split; [reflexivity|].
  exact (@segments_reference_raises demo_world true
           (parse_path "data/segments.csv")
           (demo_state demo_unloaded demo_disk) eq_refl eq_refl).
Defined.

(** C6 (as stated) fails: the recordings group of [demo_empty_group] is
    configured, with no keys, and the manifest that [save] writes has no
    [recordings] entry. *)
Lemma save_omits_configured_empty_group :
  configured GRecordings demo_empty_group = true
  /\ fst (save (W := demo_world) (parse_path "out") true None
            (demo_state demo_empty_group []))
     = Return tt
  /\ written_manifest demo_saved_empty
     = Some [("segments", YStr "segments.csv")]
  /\ omitted GRecordings demo_saved_empty = true.
Proof.
  split; [vm_compute; reflexivity|].
  split; [vm_compute; reflexivity|].
  split; vm_compute; reflexivity.
Qed.

Lemma save_manifest_groups_witness :
  save (W := demo_world) (parse_path "out") true (Some tab) demo_st
    = (Return tt, demo_saved)
  /\ exists doc,
       written_manifest demo_saved = Some doc
       /\ dict_get doc "recordings" = Some (YMap [("wav", YStr "wav.tsv")])
       /\ omitted GFeatures demo_saved = true.
Proof.
  assert (E : save (W := demo_world) (parse_path "out") true (Some tab) demo_st
              = (Return tt, demo_saved)) by (vm_compute; reflexivity).
  split; [exact E|].
  destruct (@save_manifest_groups _ _ _ _ _ _ GRecordings E) as (doc & Hw & Hrec & _).
  destruct (@save_manifest_groups _ _ _ _ _ _ GFeatures E) as (_ & _ & _ & Hft).
  exists doc. split; [exact Hw|]. split; [|exact Hft].
  change (group_name GRecordings) with "recordings" in Hrec.
  rewrite Hrec. vm_compute. reflexivity.
Defined.

Lemma save_without_update_keeps_paths_witness :
  fst (save (W := demo_world) (parse_path "out") false (Some tab) demo_st)
    = Return tt
  /\ bookkeeping
       (self (snd (save (W := demo_world) (parse_path "out") false (Some tab)
                     demo_st)))
     = bookkeeping (self demo_st).
Proof.
  split; [vm_compute; reflexivity|].
  exact (proj1 (@save_without_update_keeps_paths demo_world (parse_path "out")
                  (Some tab) demo_st)).
Defined.


Lemma load_missing_segments_witness :
  dict_mem demo_manifest "segments" = false
  /\ fst (load (W := demo_world) (parse_path "ds") true false
            (demo_state demo_lazy demo_manifest_disk))
     = Raise (UnsupportedOperation "not readable")
  /\ demo_lookup
       (disk (snd (load (W := demo_world) (parse_path "ds") true false
                     (demo_state demo_lazy demo_manifest_disk))))
       (parse_path "ds/dataset.yaml")
     = Some EmptyFile
  /\ load_document (W := demo_world) (parse_path "ds") (YMap demo_manifest)
       true false (demo_state demo_lazy demo_manifest_disk)
     = (Raise AssertionError, demo_state demo_lazy demo_manifest_disk).
Proof.
  split; [reflexivity|].
  destruct (@load_missing_segments demo_world (parse_path "ds") true false
              (demo_state demo_lazy demo_manifest_disk) demo_manifest
              (demo_write demo_manifest_disk (parse_path "ds/dataset.yaml")
                 EmptyFile)
              eq_refl eq_refl eq_refl) as [H1 H2].
  split; [rewrite H1; reflexivity|].
  split; [rewrite H1; reflexivity | exact H2].
Defined.

Lemma load_builds_no_registry_witness :
  dict_mem demo_full_manifest "segments" = true
  /\ load_document (W := demo_world) (parse_path "ds") (YMap demo_full_manifest)
       true false (demo_state demo_lazy demo_manifest_disk)
     = (Raise (AttributeError "is_file"),
        demo_state demo_lazy demo_manifest_disk).
Proof.
  split; [reflexivity|].
  destruct (@load_builds_no_registry demo_world (parse_path "ds") true false
              (demo_state demo_lazy demo_manifest_disk)) as (_ & _ & H).
  exact (H (parse_path "ds") demo_full_manifest eq_refl).
Defined.

(* ================================================================== *)
(** ** Properties of the constructor *)

Lemma dict_get_not_in {V} (d : dict V) (k : string) :
  ~ In k (dict_keys d) -> dict_get d k = None.
Proof.
  induction d as [|[k' v] d IH]; simpl; intros H; [reflexivity|].
  destruct (String.eqb k' k) eqn:E.
  - apply String.eqb_eq in E. subst. exfalso. apply H. now left.
  - apply IH. intros C. apply H. now right.
Qed.

Lemma dict_get_in {V} (d : dict V) (k : string) (v : V) :
  dict_get d k = Some v -> In k (dict_keys d).
Proof.
  induction d as [|[k' v'] d IH]; simpl; intros H; [discriminate|].
  destruct (String.eqb k' k) eqn:E.
  - apply String.eqb_eq in E. now left.
  - right. now apply IH.
Qed.

Lemma dict_keys_set_absent {V} (d : dict V) (k : string) (v : V) :
  ~ In k (dict_keys d) -> dict_keys (dict_set d k v) = dict_keys d ++ [k].
Proof.
  induction d as [|[k' v'] d IH]; simpl; intros H; [reflexivity|].
  destruct (String.eqb k' k) eqn:E.
  - apply String.eqb_eq in E. subst. exfalso. apply H. now left.
  - simpl. f_equal. apply IH. intros C. apply H. now right.
Qed.

(** A dictionary comprehension over a dictionary: one entry per key, in
    the order of the keys. *)
Lemma dict_comprehension_fold {U V} (f : string -> U -> V) (data : dict U) :
  NoDup (dict_keys data) ->
  forall acc,
    (forall k, In k (dict_keys data) -> ~ In k (dict_keys acc)) ->
    let r := fold_left (fun acc kv => dict_set acc (fst kv) (f (fst kv) (snd kv)))
               data acc in
    dict_keys r = dict_keys acc ++ dict_keys data
    /\ forall k, dict_get r k =
                 match dict_get data k with
                 | Some v => Some (f k v)
                 | None => dict_get acc k
                 end.
Proof.
  induction data as [|[k0 v0] data IH]; intros ND acc Hd; simpl.
  - split; [now rewrite app_nil_r | reflexivity].
  - inversion ND as [|? ? Hn ND']; subst.
    assert (Hacc : ~ In k0 (dict_keys acc)) by (apply Hd; now left).
    destruct (IH ND' (dict_set acc k0 (f k0 v0))) as [K G].
    { intros k Hk. rewrite dict_keys_set_absent by assumption.
      intros C. apply in_app_or in C. destruct C as [C | [C | []]].
      - apply (Hd k); [now right | exact C].
      - subst. contradiction. }
    split.
    + rewrite K, dict_keys_set_absent by assumption.
      now rewrite <- app_assoc.
    + intros k. rewrite G.
      destruct (String.eqb k0 k) eqn:E.
      * apply String.eqb_eq in E. subst k.
        rewrite (@dict_get_not_in _ data k0 Hn). apply dict_get_set_same.
      * apply String.eqb_neq in E.
        destruct (dict_get data k); [reflexivity|].
        now apply dict_get_set_other.
Qed.

Lemma dict_comprehension_spec {U V} (f : string -> U -> V) (data : dict U) :
  NoDup (dict_keys data) ->
  dict_keys (dict_comprehension f data) = dict_keys data
  /\ forall k, dict_get (dict_comprehension f data) k
               = option_map (f k) (dict_get data k).
Proof.
  intros ND.
  destruct (@dict_comprehension_fold _ _ f data ND []) as [K G].
  { intros k _ []. }
  split; [exact K|]. intros k. unfold dict_comprehension. rewrite G.
  destruct (dict_get data k); reflexivity.
Qed.

Section Construction.
Context {W : World}.

Lemma parse_dict_args_slots (data : dict PyArg) (types : list TableKind) :
  NoDup (dict_keys data) ->
  exists objs paths,
    _parse_dict_args (Some data) types = (Some objs, Some paths)
    /\ dict_keys objs = dict_keys data
    /\ dict_keys paths = dict_keys data
    /\ forall key,
         match dict_get data key with
         | None => dict_get objs key = None /\ dict_get paths key = None
         | Some v =>
             match slot_of_arg types v with
             | Materialized t =>
                 dict_get objs key = Some (Some t)
                 /\ dict_get paths key = Some None
             | Reference p =>
                 dict_get objs key = Some None
                 /\ dict_get paths key = Some (Some p)
             | Unset =>
                 dict_get objs key = Some None
                 /\ dict_get paths key = Some None
             end
         end.
Proof.
  intros ND. unfold _parse_dict_args.
  eexists. eexists. split; [reflexivity|].
  match goal with
  | |- dict_keys (dict_comprehension ?f data) = _ /\ _ =>
      destruct (@dict_comprehension_spec _ _ f data ND) as [K1 G1]
  end.
  match goal with
  | |- _ /\ dict_keys (dict_comprehension ?f data) = _ /\ _ =>
      destruct (@dict_comprehension_spec _ _ f data ND) as [K2 G2]
  end.
  split; [exact K1|]. split; [exact K2|].
  intros key. rewrite G1, G2.
  destruct (dict_get data key) as [[t|p]|]; simpl; auto.
  destruct (existsb (kind_eqb (tbl_kind t)) types); auto.
Qed.

(** X1: the constructor gives every group the keys of its argument, in
    their order, and every key the slot that its value stands for: a
    reference for a path, the object for an object of a class of the
    group, and neither for an object of another class.  A group whose
    argument is [None] has no dictionaries at all. *)
Theorem init_group_slots segs classes recordings features enrollments trials
    sparse sep d g :
  __init__ segs classes recordings features enrollments trials sparse sep
    = Return d ->
  match group_arg g classes recordings features enrollments trials with
  | None => objects_of g d = None /\ paths_of g d = None
  | Some data =>
      NoDup (dict_keys data) ->
      group_keys g d = dict_keys data
      /\ (exists paths, paths_of g d = Some paths
                        /\ dict_keys paths = dict_keys data)
      /\ forall key,
           slot_of g key d
           = option_map (slot_of_arg (classes_of_group g)) (dict_get data key)
  end.
Proof.
  intros H. unfold __init__ in H.
  destruct (if isinstance segs [KSegmentSet]
            then match segs with
                 | AObj t => Return (Some t, None)
                 | APath _ => Raise AssertionError
                 end
            else match segs with
                 | AObj _ => Raise AssertionError
                 | APath p => Return (None, Some p)
                 end) as [[sg sp]|e]; [|discriminate].
  destruct (_parse_dict_args classes [KClassInfo]) as [cl cl_p] eqn:Ecl.
  destruct (_parse_dict_args recordings [KRecordingSet]) as [rc rc_p] eqn:Erc.
  destruct (_parse_dict_args features [KFeatureSet]) as [ft ft_p] eqn:Eft.
  destruct (_parse_dict_args enrollments [KEnrollmentMap]) as [en en_p] eqn:Een.
  destruct (_parse_dict_args trials [KTrialKey; KTrialNdx; KSparseTrialKey])
    as [tr tr_p] eqn:Etr.
  inversion H; subst d; clear H.
  assert (G : forall data types objs paths,
             _parse_dict_args data types = (objs, paths) ->
             match data with
             | None => objs = None /\ paths = None
             | Some data =>
                 NoDup (dict_keys data) ->
                 exists o p,
                   objs = Some o /\ paths = Some p
                   /\ dict_keys o = dict_keys data
                   /\ dict_keys p = dict_keys data
                   /\ forall key,
                        (match dict_get o key with
                         | None => None
                         | Some (Some t) => Some (Materialized t)
                         | Some None =>
                             match dict_get p key with
                             | Some (Some q) => Some (Reference q)
                             | _ => Some Unset
                             end
                         end)
                        = option_map (slot_of_arg types) (dict_get data key)
             end).
  { intros data types objs paths E. destruct data as [data|].
    - intros ND.
      destruct (@parse_dict_args_slots data types ND) as (o & p & E' & K1 & K2 & S).
      rewrite E' in E. inversion E; subst. exists o, p.
      repeat split; trivial. intros key. specialize (S key).
      destruct (dict_get data key) as [v|]; simpl.
      + destruct (slot_of_arg types v); destruct S as [S1 S2];
          rewrite S1; try rewrite S2; reflexivity.
      + destruct S as [-> _]. reflexivity.
    - simpl in E. inversion E. auto. }
  destruct g; simpl group_arg;
    [ apply G in Erc; destruct recordings
    | apply G in Eft; destruct features
    | apply G in Ecl; destruct classes
    | apply G in Een; destruct enrollments
    | apply G in Etr; destruct trials ];
    match goal with
    | E : _ /\ _ |- _ => destruct E; subst; split; reflexivity
    | E : NoDup _ -> _ |- _ =>
        intros ND; destruct (E ND) as (o & p & -> & -> & K1 & K2 & S);
        split; [exact K1|]; split; [now exists p | exact S]
    end.
Qed.


End Construction.

(* ================================================================== *)
(** ** Edge cases and frame of the accessors *)

Section AccessorEdges.
Context {W : World}.

(** X3: an accessor raises without touching anything when the group was
    never configured ([TypeError]), when the key is not in the group
    ([KeyError]) and when the key has neither an object nor a path
    ([AssertionError]). *)
Theorem accessor_errors g key kl st :
  (objects_of g (self st) = None ->
   value_of g key kl st
     = (Raise (TypeError "'NoneType' object is not subscriptable"), st))
  /\ (forall objs,
        objects_of g (self st) = Some objs ->
        dict_get objs key = None ->
        value_of g key kl st = (Raise (KeyError key), st))
  /\ (forall objs paths,
        objects_of g (self st) = Some objs ->
        dict_get objs key = Some None ->
        paths_of g (self st) = Some paths ->
        dict_get paths key = Some None ->
        value_of g key kl st = (Raise AssertionError, st)).
Proof.
  rewrite value_of_unfold.
  unfold group_value, bind, get_self, getitem, raise, ret.
  split; [|split].
  - intros H. rewrite H. reflexivity.
  - intros objs H1 H2. rewrite H1, H2. reflexivity.
  - intros objs paths H1 H2 H3 H4. rewrite H1, H2, H3, H4. reflexivity.
Qed.

Lemma slot_materialized_objects g key t d d' :
  objects_of g d' = objects_of g d ->
  slot_of g key d = Some (Materialized t) ->
  slot_of g key d' = Some (Materialized t).
Proof.
  unfold slot_of. intros ->.
  destruct (objects_of g d) as [objs|]; [|discriminate].
  destruct (dict_get objs key) as [[t0|]|]; try discriminate; trivial.
  destruct (paths_of g d) as [paths|]; [|discriminate].
  destruct (dict_get paths key) as [[p0|]|]; discriminate.
Qed.

Lemma slot_materialized_store g key t g' key' t' d :
  slot_of g key d = Some (Materialized t) ->
  slot_of g' key' d <> Some (Materialized t') ->
  slot_of g key (store_object g' key' t' d) = Some (Materialized t)
  \/ (g = g' /\ key = key').
Proof.
  intros H N. unfold store_object.
  destruct (objects_of g' d) as [objs'|] eqn:Eo'; [|now left].
  destruct (String.eqb key' key) eqn:Ek.
  - apply String.eqb_eq in Ek. subst key'.
    destruct g, g'; try (left; revert H; apply slot_materialized_objects;
                         reflexivity); now right.
  - apply String.eqb_neq in Ek. left.
    destruct g, g';
      try (revert H; apply slot_materialized_objects; reflexivity);
      unfold slot_of in *; simpl in *; rewrite Eo' in H;
      rewrite dict_get_set_other by assumption;
      destruct (dict_get objs' key) as [[t0|]|]; try discriminate; trivial;
      exfalso; revert H;
      match goal with
      | |- context [ match ?x with Some _ => _ | None => _ end ] =>
          destruct x as [paths|]; [|discriminate]
      end;
      destruct (dict_get paths key) as [[p0|]|]; discriminate.
Qed.

(** X4: materialization is one way.  Whatever accessor is called, on
    whatever group and key and with whatever result, a slot that holds
    an object holds the same object afterwards. *)
Theorem accessor_keeps_materialized g key kl st g' key' t :
  slot_of g' key' (self st) = Some (Materialized t) ->
  slot_of g' key' (self (snd (value_of g key kl st))) = Some (Materialized t).
Proof.
  intros H.
  destruct (value_of_cases g key kl st) as [E | [p Hp]].
  - now rewrite E.
  - rewrite group_value_reference with (p := p) by assumption.
    destruct (loader_frame g p st) as (Hs & _ & _).
    destruct (loader_of g p st) as [[x|e] st1]; simpl in Hs.
    + destruct kl; simpl; [|now rewrite Hs].
      destruct (@slot_materialized_store g' key' t g key x (self st) H)
        as [G | [-> ->]]; trivial.
      * rewrite Hp. discriminate.
      * rewrite Hp in H. discriminate.
    + simpl. now rewrite Hs.
Qed.

Lemma loader_loads_only g p st :
  exists evs,
    trace (snd (loader_of g p st)) = trace st ++ evs /\ Forall is_load evs.
Proof.
  assert (S1 : forall k,
             exists evs,
               trace (snd (load_with_sep k p st)) = trace st ++ evs
               /\ Forall is_load evs).
  { intros k. unfold load_with_sep, bind, get_self.
    destruct (load_table_frame k p (Sep (table_sep (self st))) st) as (_ & _ & C).
    eexists; split; [exact C|]. repeat constructor. }
  destruct g; try apply S1.
  change (loader_of GTrials p st) with (load_trials p st).
  rewrite load_trials_run.
  destruct (table_load _ p NoSep (disk st)).
  - destruct (table_load KTrialNdx p NoSep (disk st));
      eexists; (split; [reflexivity | repeat constructor]).
  - eexists; (split; [reflexivity | repeat constructor]).
Qed.

(** What an accessor leaves alone besides the bookkeeping. *)
Lemma value_of_reads g key kl st :
  disk (snd (value_of g key kl st)) = disk st
  /\ sparse_trials (self (snd (value_of g key kl st)))
     = sparse_trials (self st)
  /\ _segments (self (snd (value_of g key kl st))) = _segments (self st)
  /\ exists evs,
       trace (snd (value_of g key kl st)) = trace st ++ evs
       /\ Forall is_load evs.
Proof.
  destruct (value_of_cases g key kl st) as [E | [p Hp]].
  - rewrite E. repeat split; trivial.
    exists (@nil IOEvent). split; [now rewrite app_nil_r | constructor].
  - rewrite group_value_reference with (p := p) by assumption.
    destruct (loader_frame g p st) as (Hs & Hd & _).
    destruct (loader_loads_only g p st) as (evs & Ht & Hl).
    assert (Q : forall t, sparse_trials (store_object g key t (self st))
                          = sparse_trials (self st)
                          /\ _segments (store_object g key t (self st))
                             = _segments (self st)).
    { intros t. unfold store_object.
      destruct (objects_of g (self st)); [|auto]. destruct g; auto. }
    destruct (loader_of g p st) as [[x|e] st1]; simpl in Hs, Hd, Ht.
    + destruct kl; simpl.
      * destruct (Q x) as [Q1 Q2]. repeat split; trivial. now exists evs.
      * rewrite Hs. repeat split; trivial. now exists evs.
    + simpl. rewrite Hs. repeat split; trivial. now exists evs.
Qed.

(** X5: an accessor only reads.  It leaves the files, the path
    bookkeeping (a materialized key keeps its path), the separator, the
    trial flag, the segment slot and the keys of every group as they
    are, and every collaborator call it makes is a [load]. *)
Theorem accessor_only_reads g key kl st :
  disk (snd (value_of g key kl st)) = disk st
  /\ bookkeeping (self (snd (value_of g key kl st))) = bookkeeping (self st)
  /\ table_sep (self (snd (value_of g key kl st))) = table_sep (self st)
  /\ sparse_trials (self (snd (value_of g key kl st))) = sparse_trials (self st)
  /\ _segments (self (snd (value_of g key kl st))) = _segments (self st)
  /\ (forall g', group_keys g' (self (snd (value_of g key kl st)))
                 = group_keys g' (self st))
  /\ exists evs,
       trace (snd (value_of g key kl st)) = trace st ++ evs
       /\ Forall is_load evs.
Proof.
  destruct (value_of_effect g key kl st) as (B & S & K & _).
  destruct (value_of_reads g key kl st) as (G1 & G2 & G3 & G4).
  repeat split; trivial.
Qed.

(** X6: when the [load] of an accessor of recordings, features, classes
    or enrollments raises, the accessor raises the same exception, with
    or without [keep_loaded]; the instance is as before, so the slot
    still holds the reference, and the trace has the one failed call. *)
Theorem accessor_load_failure g key p kl st e :
  g <> GTrials ->
  slot_of g key (self st) = Some (Reference p) ->
  table_load (kind_of g false) p (Sep (table_sep (self st))) (disk st) = inl e ->
  value_of g key kl st
    = (Raise e,
       log (EvLoad (kind_of g false) p (Sep (table_sep (self st)))) st)
  /\ slot_of g key (self (snd (value_of g key kl st))) = Some (Reference p).
Proof.
  intros Hg Hslot He.
  assert (E : value_of g key kl st
              = (Raise e,
                 log (EvLoad (kind_of g false) p (Sep (table_sep (self st)))) st)).
  { rewrite group_value_reference with (p := p) by assumption.
    destruct g; try contradiction;
      unfold loader_of, load_with_sep, bind, get_self;
      rewrite load_table_run; simpl kind_of in He; rewrite He; reflexivity. }
  split; [exact E|]. rewrite E. exact Hslot.
Qed.

End AccessorEdges.

(* ================================================================== *)
(** ** More on path resolution *)

Lemma path_join_dataset_yaml (p : Path) :
  path_join_str p "dataset.yaml"
    = mkPath (anchored p) (parts p ++ ["dataset.yaml"]).
Proof. reflexivity. Qed.

Lemma last_snoc {A} (l : list A) (x d : A) : last (l ++ [x]) d = x.
Proof.
  induction l as [|a l IH]; [reflexivity|].
  simpl. destruct (l ++ [x]) eqn:E; [|exact IH].
  destruct l; discriminate.
Qed.

(** X13: the manifest file that [resolve_dataset_path] returns always
    has the suffix [.yaml], the directory it returns is the parent of
    that file, and resolving the manifest file again gives the same
    pair. *)
Theorem resolve_dataset_path_manifest (p : Path) :
  suffix (snd (resolve_dataset_path p)) = ".yaml"
  /\ fst (resolve_dataset_path p) = parent (snd (resolve_dataset_path p))
  /\ resolve_dataset_path (snd (resolve_dataset_path p))
     = resolve_dataset_path p.
Proof.
  assert (S : suffix (path_join_str p "dataset.yaml") = ".yaml").
  { rewrite path_join_dataset_yaml. unfold suffix, name. simpl parts.
    rewrite last_snoc. reflexivity. }
  assert (Q : parent (path_join_str p "dataset.yaml") = p).
  { rewrite path_join_dataset_yaml. unfold parent. simpl.
    rewrite removelast_last. destruct p; reflexivity. }
  rewrite (resolve_dataset_path_only_yaml p).
  destruct (String.eqb (suffix p) ".yaml") eqn:E; simpl.
  - apply String.eqb_eq in E. split; [exact E|]. split; [reflexivity|].
    rewrite resolve_dataset_path_only_yaml, E, String.eqb_refl. reflexivity.
  - split; [exact S|]. split; [now rewrite Q|].
    rewrite resolve_dataset_path_only_yaml, S, Q. reflexivity.
Qed.

Section FilePaths.
Context {W : World}.

(** X14: [resolve_file_path] changes nothing.  On a path object, what
    [is_file] raises is raised; a path that names an existing file and
    an anchored path come back as they are; any other path comes back as
    the components of the directory followed by its own.  On a string of
    the manifest it raises [AttributeError]. *)
Theorem resolve_file_path_cases dir p y st :
  resolve_file_path dir (VPath p) st
    = (match path_is_file p (disk st) with
       | inl e => Raise e
       | inr b =>
           Return (if b || anchored p then p
                   else mkPath (anchored dir) (parts dir ++ parts p))
       end, st)
  /\ resolve_file_path dir (VYaml y) st = (Raise (AttributeError "is_file"), st).
Proof.
  split; [|reflexivity]. unfold resolve_file_path, path_join.
  destruct (path_is_file p (disk st)) as [e|[|]]; [reflexivity|reflexivity|].
  destruct (anchored p); reflexivity.
Qed.

End FilePaths.

(* ================================================================== *)
(** ** Iterating over a group *)

Section Iteration.
Context {W : World}.

Lemma keeps_objects_refl st : keeps_objects st st.
Proof. intros g key t H. exact H. Qed.

Lemma keeps_objects_trans a b c :
  keeps_objects a b -> keeps_objects b c -> keeps_objects a c.
Proof. intros H1 H2 g key t H. apply H2, H1, H. Qed.

Lemma keeps_objects_objects st st' :
  (forall g, objects_of g (self st') = objects_of g (self st)) ->
  keeps_objects st st'.
Proof.
  intros H g key t. apply slot_materialized_objects. apply H.
Qed.

Lemma keeps_objects_self st st' : self st' = self st -> keeps_objects st st'.
Proof. intros H. apply keeps_objects_objects. intros g. now rewrite H. Qed.

Lemma keeps_objects_value g key kl : respects keeps_objects (value_of g key kl).
Proof.
  intros st g' key' t H.
  destruct (value_of_cases g key kl st) as [E | [p Hp]].
  - now rewrite E.
  - rewrite group_value_reference with (p := p) by assumption.
    destruct (loader_frame g p st) as (Hs & _ & _).
    destruct (loader_of g p st) as [[x|e] st1]; simpl in Hs.
    + destruct kl; simpl; [|now rewrite Hs].
      destruct (@slot_materialized_store _ g' key' t g key x (self st) H)
        as [G | [-> ->]]; trivial.
      * rewrite Hp. discriminate.
      * rewrite Hp in H. discriminate.
    + simpl. now rewrite Hs.
Qed.

(** An accessor called with [keep_loaded] returns what the slot holds
    from then on. *)
Lemma value_of_returns_materialized g key st r st' :
  value_of g key true st = (Return r, st') ->
  exists t, r = Some t /\ slot_of g key (self st') = Some (Materialized t).
Proof.
  intros H.
  destruct (slot_of g key (self st)) as [[t|p|]|] eqn:Es.
  - rewrite group_value_materialized with (t := t) in H by assumption.
    inversion H; subst. now exists t.
  - rewrite group_value_reference with (p := p) in H by assumption.
    destruct (loader_of g p st) as [[x|e] st1]; [|discriminate].
    inversion H; subst. exists x. split; [reflexivity|]. simpl.
    now apply slot_of_store_object with (p := p).
  - exfalso. rewrite value_of_unfold in H. unfold slot_of in Es.
    unfold group_value, bind, get_self, getitem, raise, ret in H.
    destruct (objects_of g (self st)) as [objs|]; [|discriminate].
    destruct (dict_get objs key) as [[t0|]|]; try discriminate.
    destruct (paths_of g (self st)) as [paths|]; [|discriminate].
    destruct (dict_get paths key) as [[p0|]|]; discriminate.
  - exfalso. rewrite value_of_unfold in H. unfold slot_of in Es.
    unfold group_value, bind, get_self, getitem, raise, ret in H.
    destruct (objects_of g (self st)) as [objs|]; [|discriminate].
    destruct (dict_get objs key) as [[t0|]|]; try discriminate.
    destruct (paths_of g (self st)) as [paths|]; [|discriminate].
    destruct (dict_get paths key) as [[p0|]|]; discriminate.
Qed.

(** A loop over the items of a group that returns has given every key
    what one pass of the loop gives it, provided that the later passes
    keep it. *)
Lemma for_items_establishes (R : St -> St -> Prop) (P : string -> St -> Prop)
    g B (body : B -> string -> option Table -> Py B) :
  (forall s, R s s) ->
  (forall a b c, R a b -> R b c -> R a c) ->
  (forall k a b, R a b -> P k a -> P k b) ->
  (forall key kl, respects R (value_of g key kl)) ->
  (forall acc k v, respects R (body acc k v)) ->
  (forall acc k st r st',
      (v <- value_of g k true ;; body acc k v) st = (Return r, st') ->
      P k st') ->
  forall acc st r st',
    for_items (items_of g true) body acc st = (Return r, st') ->
    forall k, In k (group_keys g (self st)) -> P k st'.
Proof.
  intros Rr Rt RP Rv Rb Est acc st r st' H k Hk.
  unfold for_items, items_of in H. unfold group_keys in Hk.
  apply bind_returns in H as (items & s1 & H1 & H2).
  apply bind_returns in H1 as (d & s0 & H0 & H1).
  unfold get_self in H0. inversion H0; subst d s0; clear H0.
  destruct (objects_of g (self st)) as [m|]; [|contradiction].
  unfold ret in H1. inversion H1; subst items s1; clear H1.
  revert acc st H2 Hk.
  induction (dict_keys m) as [|k0 keys IH]; intros acc st H Hk; [contradiction|].
  simpl in H. apply bind_returns in H as (acc' & s' & Hb & H).
  destruct Hk as [-> | Hk].
  - apply RP with (a := s'); [|eapply Est; exact Hb].
    assert (Q : respects R
                  (for_fold (map (fun key => (key, value_of g key true)) keys)
                     (fun acc item => v <- snd item ;; body acc (fst item) v)
                     acc')).
    { apply respects_for_fold; trivial.
      intros a x Hx. apply in_map_iff in Hx. destruct Hx as (key & <- & _).
      simpl. apply respects_bind; trivial. }
    specialize (Q s'). rewrite H in Q. exact Q.
  - eapply IH; eassumption.
Qed.

Lemma for_items_unconfigured g kl B (body : B -> string -> option Table -> Py B)
    acc st :
  objects_of g (self st) = None ->
  for_items (items_of g kl) body acc st = (Return acc, st).
Proof.
  intros H. unfold for_items, items_of, bind, get_self. rewrite H. reflexivity.
Qed.

(** An idle loop over a group, as in [update_from_disk]. *)
Lemma idle_loop_effect g st :
  keeps_objects st (snd (for_items (items_of g true) (fun _ _ _ => ret tt) tt st))
  /\ same_keys st (snd (for_items (items_of g true) (fun _ _ _ => ret tt) tt st))
  /\ same_bookkeeping st
       (snd (for_items (items_of g true) (fun _ _ _ => ret tt) tt st))
  /\ _segments (self (snd (for_items (items_of g true) (fun _ _ _ => ret tt) tt st)))
     = _segments (self st).
Proof.
  split; [|split; [|split]].
  - apply (@respects_for_items _ keeps_objects keeps_objects_refl
             keeps_objects_trans keeps_objects_value).
    intros. apply respects_ret. apply keeps_objects_refl.
  - apply (@respects_for_items _ same_keys same_keys_refl
             same_keys_trans same_keys_value).
    intros. apply respects_ret. apply same_keys_refl.
  - apply (@respects_for_items _ same_bookkeeping same_bookkeeping_refl
             same_bookkeeping_trans).
    + intros g0 key kl st0.
      destruct (value_of_effect g0 key kl st0) as (H1 & H2 & _). now split.
    + intros. apply respects_ret. apply same_bookkeeping_refl.
  - apply (@respects_for_items _
             (fun a b => _segments (self b) = _segments (self a))).
    + reflexivity.
    + intros a b c H1 H2. congruence.
    + intros g0 key kl st0.
      now destruct (value_of_reads g0 key kl st0) as (_ & _ & H & _).
    + intros. apply respects_ret. reflexivity.
Qed.

Lemma idle_loop_materializes g st st' :
  for_items (items_of g true) (fun _ _ _ => ret tt) tt st = (Return tt, st') ->
  all_materialized g (self st').
Proof.
  intros H key Hk.
  assert (K : same_keys st st').
  { destruct (idle_loop_effect g st) as (_ & K & _). now rewrite H in K. }
  rewrite (K g) in Hk.
  apply (@for_items_establishes keeps_objects
           (fun k s => exists t, slot_of g k (self s) = Some (Materialized t))
           g unit (fun _ _ _ => ret tt)
           keeps_objects_refl keeps_objects_trans) with (acc := tt) (st := st)
                                                         (r := tt); trivial.
  - intros k a b Hab [t Ht]. exists t. now apply Hab.
  - intros key0 kl. apply keeps_objects_value.
  - intros. apply respects_ret. apply keeps_objects_refl.
  - intros acc k s r s' Hrun.
    apply bind_returns in Hrun as (v & s0 & Hv & Hb).
    unfold ret in Hb. inversion Hb; subst.
    apply value_of_returns_materialized in Hv as (t & _ & Ht). now exists t.
Qed.

(** X7: an iterator over a group that was never configured yields
    nothing: a loop over it returns at once, whatever its body, without
    touching the state. *)
Theorem iterate_unconfigured_group g kl B
    (body : B -> string -> option Table -> Py B) acc st :
  objects_of g (self st) = None ->
  items_of g kl st = (Return [], st)
  /\ for_items (items_of g kl) body acc st = (Return acc, st).
Proof.
  intros H. split.
  - unfold items_of, bind, get_self. rewrite H. reflexivity.
  - now apply for_items_unconfigured.
Qed.

(** X11: while the segment table is only a path, neither
    [update_from_disk] nor [save] gets past [self.segments()]: both raise
    before any collaborator is called, [AssertionError] when there is no
    path either and [AttributeError] otherwise; [save] with
    [update_paths] has stored its separator by then. *)
Theorem unloaded_segments_block st path up arg :
  _segments (self st) = None ->
  let e := match _segments_path (self st) with
           | None => AssertionError
           | Some _ => AttributeError "segments_path"
           end in
  update_from_disk st = (Raise e, st)
  /\ save path up arg st
     = (Raise e, save_start up (effective_sep arg (self st)) st).
Proof.
  intros H e.
  assert (S0 : forall s, _segments (self s) = None ->
                         _segments_path (self s) = _segments_path (self st) ->
                         segments true s = (Raise e, s)).
  { intros s H1 H2. unfold segments, bind, get_self. rewrite H1. unfold e.
    rewrite H2. destruct (_segments_path (self st)); reflexivity. }
  split.
  - unfold update_from_disk, bind. rewrite (S0 st H eq_refl). reflexivity.
  - unfold save. unfold bind at 1. unfold get_self at 1. cbv beta iota zeta.
    fold (effective_sep arg (self st)). unfold bind at 1.
    destruct up; simpl.
    + unfold bind at 1. rewrite S0; [reflexivity | exact H | reflexivity].
    + unfold bind at 1. rewrite S0; [reflexivity | exact H | reflexivity].
Qed.

(** X12: when [update_from_disk] returns, every key of every group
    holds an object, objects that were there are the same, and the
    segment slot, the path bookkeeping, the separator and the keys are
    untouched. *)
Theorem update_from_disk_materializes st st' :
  update_from_disk st = (Return tt, st') ->
  (forall g, all_materialized g (self st'))
  /\ keeps_objects st st'
  /\ _segments (self st') = _segments (self st)
  /\ bookkeeping (self st') = bookkeeping (self st)
  /\ table_sep (self st') = table_sep (self st)
  /\ (forall g, group_keys g (self st') = group_keys g (self st)).
Proof.
  intros H. unfold update_from_disk in H.
  apply bind_returns in H as (segs & s0 & H0 & H).
  apply segments_returns in H0 as [_ ->].
  apply bind_returns in H as ([] & s1 & H1 & H).
  apply bind_returns in H as ([] & s2 & H2 & H).
  apply bind_returns in H as ([] & s3 & H3 & H).
  apply bind_returns in H as ([] & s4 & H4 & H5).
  pose proof (idle_loop_effect GRecordings st) as E1.
  unfold recordings in H1. rewrite H1 in E1. simpl in E1.
  pose proof (idle_loop_effect GFeatures s1) as E2.
  unfold features in H2. rewrite H2 in E2. simpl in E2.
  pose proof (idle_loop_effect GClasses s2) as E3.
  unfold classes in H3. rewrite H3 in E3. simpl in E3.
  pose proof (idle_loop_effect GEnrollments s3) as E4.
  unfold enrollments in H4. rewrite H4 in E4. simpl in E4.
  pose proof (idle_loop_effect GTrials s4) as E5.
  unfold trials in H5. rewrite H5 in E5. simpl in E5.
  destruct E1 as (O1 & K1 & [B1 T1] & G1).
  destruct E2 as (O2 & K2 & [B2 T2] & G2).
  destruct E3 as (O3 & K3 & [B3 T3] & G3).
  destruct E4 as (O4 & K4 & [B4 T4] & G4).
  destruct E5 as (O5 & K5 & [B5 T5] & G5).
  apply idle_loop_materializes in H1, H2, H3, H4, H5.
  assert (Keep : forall g a b, keeps_objects a b -> same_keys a b ->
                               all_materialized g (self a) ->
                               all_materialized g (self b)).
  { intros g a b Ko Ks Ha key Hk. rewrite (Ks g) in Hk.
    destruct (Ha key Hk) as [t Ht]. exists t. now apply Ko. }
  split; [|split; [|split; [|split; [|split]]]].
  - intros g. destruct g.
    + apply (Keep _ s4 st' O5 K5), (Keep _ s3 s4 O4 K4), (Keep _ s2 s3 O3 K3),
        (Keep _ s1 s2 O2 K2), H1.
    + apply (Keep _ s4 st' O5 K5), (Keep _ s3 s4 O4 K4), (Keep _ s2 s3 O3 K3),
        H2.
    + apply (Keep _ s4 st' O5 K5), (Keep _ s3 s4 O4 K4), H3.
    + apply (Keep _ s4 st' O5 K5), H4.
    + exact H5.
  - repeat (eapply keeps_objects_trans; [eassumption|]).
    apply keeps_objects_refl.
  - congruence.
  - congruence.
  - congruence.
  - intros g. rewrite (K5 g), (K4 g), (K3 g), (K2 g), (K1 g). reflexivity.
Qed.

End Iteration.

(* ================================================================== *)
(** ** What a returning [save] has done *)

Section SaveStages.
Context {W : World}.

Lemma yaml_dump_to_returns doc p st st' :
  yaml_dump_to doc (p, ModeW) st = (Return tt, st') ->
  self st' = self st /\ trace st' = trace st ++ [EvYamlDump doc p].
Proof.
  unfold yaml_dump_to. simpl.
  destruct (yaml_dump doc p (disk st)); intros H; inversion H; auto.
Qed.

(** The stages of a call of [save] that returns. *)
Lemma save_stages path up arg st st' :
  save path up arg st = (Return tt, st') ->
  exists segs s1 s3 s4 s5 s6 s7 fn1 fn2 fn3 fn4 fn5 doc,
    _segments (self st) = Some segs
    /\ save_table segs
         (path_join_str (fst (resolve_dataset_path path))
            ("segments" ++ ext_of (effective_sep arg (self st)))%string)
         (Sep (effective_sep arg (self st)))
         (save_start up (effective_sep arg (self st)) st)
       = (Return tt, s1)
    /\ save_group GRecordings (Sep (effective_sep arg (self st)))
         (fst (resolve_dataset_path path))
         (ext_of (effective_sep arg (self st))) up
         (if up
          then with_self
                 (set__segments_path
                    (Some (path_join_str (fst (resolve_dataset_path path))
                             ("segments" ++ ext_of (effective_sep arg (self st)))%string))
                    (self s1)) s1
          else s1)
       = (Return fn1, s3)
    /\ save_group GFeatures (Sep (effective_sep arg (self st)))
         (fst (resolve_dataset_path path))
         (ext_of (effective_sep arg (self st))) up s3
       = (Return fn2, s4)
    /\ save_group GClasses (Sep (effective_sep arg (self st)))
         (fst (resolve_dataset_path path))
         (ext_of (effective_sep arg (self st))) up s4
       = (Return fn3, s5)
    /\ save_group GEnrollments (Sep (effective_sep arg (self st)))
         (fst (resolve_dataset_path path))
         (ext_of (effective_sep arg (self st))) up s5
       = (Return fn4, s6)
    /\ save_group GTrials NoSep (fst (resolve_dataset_path path))
         (ext_of (effective_sep arg (self st))) up s6
       = (Return fn5, s7)
    /\ self st' = self s7
    /\ trace st' = trace s7
                   ++ [EvOpen (snd (resolve_dataset_path path)) ModeW;
                       EvYamlDump doc (snd (resolve_dataset_path path))].
Proof.
  intros H. unfold save in H.
  apply bind_returns in H as (d & s0 & H0 & H).
  unfold get_self in H0. inversion H0; subst d s0; clear H0.
  fold (effective_sep arg (self st)) in H.
  set (sv := effective_sep arg (self st)) in *.
  fold (ext_of sv) in H. set (ext := ext_of sv) in *.
  apply bind_returns in H as (u1 & s0 & H1 & H).
  assert (E0 : s0 = save_start up sv st).
  { unfold save_start. destruct up; inversion H1; reflexivity. }
  subst s0. clear H1.
  apply bind_returns in H as (segs & s0' & H2 & H).
  apply segments_returns in H2 as [Hseg ->].
  assert (Hseg' : _segments (self st) = Some segs).
  { unfold save_start in Hseg. destruct up; exact Hseg. }
  apply bind_returns in H as (u3 & s1 & H3 & H). destruct u3.
  apply bind_returns in H as (u4 & s2 & H4 & H).
  assert (E2 : s2 = if up
                    then with_self
                           (set__segments_path
                              (Some (path_join_str (fst (resolve_dataset_path path))
                                       ("segments" ++ ext)%string))
                              (self s1)) s1
                    else s1).
  { destruct up; inversion H4; reflexivity. }
  subst s2. clear H4.
  apply bind_returns in H as (fn1 & s3 & H5 & H).
  apply bind_returns in H as (fn2 & s4 & H6 & H).
  apply bind_returns in H as (fn3 & s5 & H7 & H).
  apply bind_returns in H as (fn4 & s6 & H8 & H).
  apply bind_returns in H as (fn5 & s7 & H9 & H).
  apply bind_returns in H as (f & s8 & H10 & H).
  assert (O : f = (snd (resolve_dataset_path path), ModeW)
              /\ self s8 = self s7
              /\ trace s8 = trace s7
                            ++ [EvOpen (snd (resolve_dataset_path path)) ModeW]).
  { unfold py_open in H10.
    destruct (open_w (snd (resolve_dataset_path path)) (disk s7));
      inversion H10; subst; auto. }
  destruct O as (-> & S8 & T8). clear H10.
  apply yaml_dump_to_returns in H as [S9 T9].
  exists segs, s1, s3, s4, s5, s6, s7, fn1, fn2, fn3, fn4, fn5.
  eexists.
  repeat (split; [eassumption|]).
  split; [congruence|]. rewrite T9, T8, <- app_assoc. reflexivity.
Qed.

Lemma keeps_objects_save_table t p a : respects keeps_objects (save_table t p a).
Proof.
  intros st. apply keeps_objects_self. now destruct (save_table_effect t p a st).
Qed.

Lemma keeps_objects_setitem_path g k v :
  respects keeps_objects (setitem_path g k v).
Proof.
  intros st. apply keeps_objects_objects.
  now destruct (setitem_path_effect g k v st) as (_ & _ & H).
Qed.

Lemma keeps_objects_set_segments_path v :
  respects keeps_objects (modify_self (set__segments_path v)).
Proof.
  intros st. apply keeps_objects_objects. intros g. destruct g; reflexivity.
Qed.

Lemma keeps_objects_save_group g a dir ext up :
  respects keeps_objects (save_group g a dir ext up).
Proof.
  destruct a as [|s].
  - apply respects_save_group with (sv := None); auto using keeps_objects_refl,
      keeps_objects_value, keeps_objects_save_table, keeps_objects_setitem_path,
      keeps_objects_set_segments_path.
    apply keeps_objects_trans.
  - apply respects_save_group with (sv := s); auto using keeps_objects_refl,
      keeps_objects_value, keeps_objects_save_table, keeps_objects_setitem_path,
      keeps_objects_set_segments_path.
    apply keeps_objects_trans.
Qed.

(** The body of a loop of [save] keeps the objects. *)
Lemma keeps_objects_save_body g a dir ext (up : bool) (acc : dict string) k v :
  respects keeps_objects
    (obj_save v (path_join_str dir (k ++ ext)%string) a ;;
     (if up then setitem_path g k (Some (path_join_str dir (k ++ ext)%string))
      else ret tt) ;;
     ret (dict_set acc k (k ++ ext)%string)).
Proof.
  apply respects_bind.
  - apply keeps_objects_trans.
  - destruct v; simpl; [apply keeps_objects_save_table|].
    intros st. apply keeps_objects_refl.
  - intros _. apply respects_bind.
    + apply keeps_objects_trans.
    + destruct up; [apply keeps_objects_setitem_path|].
      intros st. apply keeps_objects_refl.
    + intros _ st. apply keeps_objects_refl.
Qed.

Lemma save_group_materializes g a dir ext up st fn st' :
  save_group g a dir ext up st = (Return fn, st') ->
  all_materialized g (self st').
Proof.
  intros H key Hk.
  assert (K : same_keys st st').
  { pose proof (same_keys_save_group g a dir ext up st) as K.
    now rewrite H in K. }
  rewrite (K g) in Hk. unfold save_group in H.
  revert H key Hk.
  apply (@for_items_establishes _ keeps_objects
           (fun k s => exists t, slot_of g k (self s) = Some (Materialized t))
           g (dict string) _ keeps_objects_refl keeps_objects_trans).
  - intros k x y Hxy [t Ht]. exists t. now apply Hxy.
  - intros key0 kl. apply keeps_objects_value.
  - intros acc k v. apply keeps_objects_save_body.
  - intros acc k s r s' Hrun.
    apply bind_returns in Hrun as (v & s0 & Hv & Hb).
    apply value_of_returns_materialized in Hv as (t & _ & Ht). exists t.
    pose proof (@keeps_objects_save_body g a dir ext up acc k v s0) as Q.
    cbv zeta in Hb. rewrite Hb in Q. now apply Q.
Qed.

(** X8: when [save] returns, every table of the registry is in memory:
    every key of every group holds an object, whatever [update_paths]
    is; objects that were there are the same, and the keys of the groups
    are unchanged. *)
Theorem save_materializes_all path up arg st st' :
  save path up arg st = (Return tt, st') ->
  (forall g, all_materialized g (self st'))
  /\ keeps_objects st st'
  /\ (forall g, group_keys g (self st') = group_keys g (self st)).
Proof.
  intros H.
  pose proof (same_keys_save path up arg st) as K. rewrite H in K. simpl in K.
  apply save_stages in H
    as (segs & s1 & s3 & s4 & s5 & s6 & s7 & fn1 & fn2 & fn3 & fn4 & fn5 & doc
        & _ & H1 & H3 & H4 & H5 & H6 & H7 & S & _).
  assert (Run : forall g a dir ext up x fn y,
             save_group g a dir ext up x = (Return fn, y) ->
             keeps_objects x y /\ same_keys x y).
  { intros g a dir ext up0 x fn y E.
    pose proof (keeps_objects_save_group g a dir ext up0 x) as A.
    pose proof (same_keys_save_group g a dir ext up0 x) as B.
    rewrite E in A, B. auto. }
  assert (Keep : forall g a b, keeps_objects a b -> same_keys a b ->
                               all_materialized g (self a) ->
                               all_materialized g (self b)).
  { intros g a b Ko Ks Ha key Hk. rewrite (Ks g) in Hk.
    destruct (Ha key Hk) as [t Ht]. exists t. now apply Ko. }
  destruct (Run _ _ _ _ _ _ _ _ H3) as [O3 K3].
  destruct (Run _ _ _ _ _ _ _ _ H4) as [O4 K4].
  destruct (Run _ _ _ _ _ _ _ _ H5) as [O5 K5].
  destruct (Run _ _ _ _ _ _ _ _ H6) as [O6 K6].
  destruct (Run _ _ _ _ _ _ _ _ H7) as [O7 K7].
  apply save_group_materializes in H3, H4, H5, H6, H7.
  assert (O0 : keeps_objects st s1).
  { apply keeps_objects_trans with (b := save_start up (effective_sep arg (self st)) st).
    - unfold save_start. destruct up; [|apply keeps_objects_refl].
      apply keeps_objects_objects. intros g. destruct g; reflexivity.
    - pose proof (keeps_objects_save_table segs
                    (path_join_str (fst (resolve_dataset_path path))
                       ("segments" ++ ext_of (effective_sep arg (self st)))%string)
                    (Sep (effective_sep arg (self st)))
                    (save_start up (effective_sep arg (self st)) st)) as Q.
      now rewrite H1 in Q. }
  assert (O2 : keeps_objects s1
                 (if up
                  then with_self
                         (set__segments_path
                            (Some (path_join_str (fst (resolve_dataset_path path))
                                     ("segments"
                                      ++ ext_of (effective_sep arg (self st)))%string))
                            (self s1)) s1
                  else s1)).
  { destruct up; [|apply keeps_objects_refl].
    apply keeps_objects_objects. intros g. destruct g; reflexivity. }
  assert (F : forall g, all_materialized g (self s7)).
  { intros g. destruct g.
    - apply (Keep _ s6 s7 O7 K7), (Keep _ s5 s6 O6 K6), (Keep _ s4 s5 O5 K5),
        (Keep _ s3 s4 O4 K4), H3.
    - apply (Keep _ s6 s7 O7 K7), (Keep _ s5 s6 O6 K6), (Keep _ s4 s5 O5 K5), H4.
    - apply (Keep _ s6 s7 O7 K7), (Keep _ s5 s6 O6 K6), H5.
    - apply (Keep _ s6 s7 O7 K7), H6.
    - exact H7. }
  split; [|split].
  - intros g. unfold all_materialized. rewrite S. apply F.
  - intros g key t Ht. rewrite S.
    apply O7, O6, O5, O4, O3, O2, O0, Ht.
  - exact K.
Qed.

End SaveStages.

Section SavePaths.
Context {W : World}.

Lemma paths_of_set_paths g v d : paths_of g (set_paths g v d) = v.
Proof. destruct g; reflexivity. Qed.

Lemma setitem_path_returns g k v st st' :
  setitem_path g k v st = (Return tt, st') ->
  exists m,
    paths_of g (self st) = Some m
    /\ st' = with_self (set_paths g (Some (dict_set m k v)) (self st)) st.
Proof.
  unfold setitem_path, bind, get_self, modify_self, raise.
  destruct (paths_of g (self st)) as [m|]; intros H; inversion H.
  now exists m.
Qed.

Lemma keeps_paths_refl dir ext st : keeps_paths dir ext st st.
Proof. split; auto. Qed.

Lemma keeps_paths_trans dir ext a b c :
  keeps_paths dir ext a b -> keeps_paths dir ext b c -> keeps_paths dir ext a c.
Proof. intros [H1 H1'] [H2 H2']. split; auto. Qed.

Lemma keeps_paths_bookkeeping dir ext st st' :
  bookkeeping (self st') = bookkeeping (self st) ->
  keeps_paths dir ext st st'.
Proof.
  intros H. unfold bookkeeping in H.
  injection H as H0 H1 H2 H3 H4 H5.
  split.
  - intros g k (paths & Hp & Hk). exists paths. split; [|exact Hk].
    destruct g; simpl in *; congruence.
  - congruence.
Qed.

Lemma keeps_paths_self dir ext st st' :
  self st' = self st -> keeps_paths dir ext st st'.
Proof. intros H. apply keeps_paths_bookkeeping. now rewrite H. Qed.

Lemma keeps_paths_value dir ext g key kl :
  respects (keeps_paths dir ext) (value_of g key kl).
Proof.
  intros st. apply keeps_paths_bookkeeping.
  now destruct (value_of_effect g key kl st).
Qed.

Lemma keeps_paths_save_table dir ext t p a :
  respects (keeps_paths dir ext) (save_table t p a).
Proof.
  intros st. apply keeps_paths_self. now destruct (save_table_effect t p a st).
Qed.

(** Recording the file of a key keeps the files recorded before. *)
Lemma keeps_paths_setitem_path dir ext g k :
  respects (keeps_paths dir ext)
    (setitem_path g k (Some (path_join_str dir (k ++ ext)%string))).
Proof.
  intros st.
  destruct (setitem_path g k (Some (path_join_str dir (k ++ ext)%string)) st)
    as [[[]|e] st'] eqn:E.
  - apply setitem_path_returns in E as (m & Hm & ->). simpl. split.
    + intros g0 k0 (paths & Hp & Hk). unfold path_recorded. simpl.
      destruct (String.eqb k k0) eqn:Ek.
      * apply String.eqb_eq in Ek. subst k0.
        destruct g, g0; simpl in *;
          try (exists paths; split; [exact Hp | exact Hk]);
          (eexists; split; [reflexivity | apply dict_get_set_same]).
      * apply String.eqb_neq in Ek.
        destruct g, g0; simpl in *;
          try (exists paths; split; [exact Hp | exact Hk]);
          (eexists; split; [reflexivity|];
           rewrite dict_get_set_other by assumption; congruence).
    + simpl. destruct g; simpl; auto.
  - assert (S : st' = st).
    { unfold setitem_path, bind, get_self, modify_self, raise in E.
      destruct (paths_of g (self st)); inversion E; reflexivity. }
    subst. apply keeps_paths_refl.
Qed.

Lemma keeps_paths_save_body dir ext g a (up : bool) (acc : dict string) k v :
  respects (keeps_paths dir ext)
    (obj_save v (path_join_str dir (k ++ ext)%string) a ;;
     (if up then setitem_path g k (Some (path_join_str dir (k ++ ext)%string))
      else ret tt) ;;
     ret (dict_set acc k (k ++ ext)%string)).
Proof.
  apply respects_bind.
  - apply keeps_paths_trans.
  - destruct v; simpl; [apply keeps_paths_save_table|].
    intros st. apply keeps_paths_refl.
  - intros _. apply respects_bind.
    + apply keeps_paths_trans.
    + destruct up; [apply keeps_paths_setitem_path|].
      intros st. apply keeps_paths_refl.
    + intros _ st. apply keeps_paths_refl.
Qed.

Lemma keeps_paths_save_group dir ext g a up :
  respects (keeps_paths dir ext) (save_group g a dir ext up).
Proof.
  unfold save_group.
  apply (@respects_for_items _ (keeps_paths dir ext) (@keeps_paths_refl dir ext)
           (@keeps_paths_trans dir ext)).
  - intros g0 key kl. apply keeps_paths_value.
  - intros acc k v. apply keeps_paths_save_body.
Qed.

Lemma save_group_records_paths dir ext g a st fn st' :
  save_group g a dir ext true st = (Return fn, st') ->
  forall k, In k (group_keys g (self st)) -> path_recorded dir ext g k st'.
Proof.
  unfold save_group.
  apply (@for_items_establishes _ (keeps_paths dir ext)
           (fun k s => path_recorded dir ext g k s)
           g (dict string) _ (@keeps_paths_refl dir ext)
           (@keeps_paths_trans dir ext)).
  - intros k x y [Hxy _]. apply Hxy.
  - intros key kl. apply keeps_paths_value.
  - intros acc k v. apply (@keeps_paths_save_body dir ext g a true acc k v).
  - intros acc k s r s' Hrun.
    apply bind_returns in Hrun as (v & s0 & _ & Hb). cbv zeta in Hb.
    apply bind_returns in Hb as ([] & s1 & _ & Hb).
    apply bind_returns in Hb as ([] & s2 & Hset & Hb).
    unfold ret in Hb. inversion Hb; subst s' r; clear Hb.
    apply setitem_path_returns in Hset as (m & Hm & ->).
    unfold path_recorded. simpl. rewrite paths_of_set_paths.
    eexists. split; [reflexivity | apply dict_get_set_same].
Qed.

(** X9: when [save] with [update_paths = true] returns, the bookkeeping
    describes the files just written: the stored separator is the one of
    the call, the segment path is [segments] plus the extension under
    the directory, and the path of every key of every group is the key
    plus the extension under the directory. *)
Theorem save_updates_paths path arg st st' :
  save path true arg st = (Return tt, st') ->
  table_sep (self st') = effective_sep arg (self st)
  /\ _segments_path (self st')
     = Some (path_join_str (fst (resolve_dataset_path path))
               ("segments" ++ ext_of (effective_sep arg (self st)))%string)
  /\ forall g k,
       In k (group_keys g (self st)) ->
       path_recorded (fst (resolve_dataset_path path))
         (ext_of (effective_sep arg (self st))) g k st'.
Proof.
  intros H.
  assert (Hsep : table_sep (self st') = effective_sep arg (self st)).
  { pose proof (sep_discipline_save_from path true arg st) as D.
    rewrite H in D. simpl in D. apply D. destruct (self st); reflexivity. }
  split; [exact Hsep|].
  apply save_stages in H
    as (segs & s1 & s3 & s4 & s5 & s6 & s7 & fn1 & fn2 & fn3 & fn4 & fn5 & doc
        & _ & H1 & H3 & H4 & H5 & H6 & H7 & S & _).
  set (dir := fst (resolve_dataset_path path)) in *.
  set (ext := ext_of (effective_sep arg (self st))) in *.
  set (s2 := with_self
               (set__segments_path
                  (Some (path_join_str dir ("segments" ++ ext)%string)) (self s1))
               s1) in *.
  assert (Run : forall g a x fn y,
             save_group g a dir ext true x = (Return fn, y) ->
             keeps_paths dir ext x y /\ same_keys x y).
  { intros g a x fn y E.
    pose proof (keeps_paths_save_group dir ext g a true x) as A.
    pose proof (same_keys_save_group g a dir ext true x) as B.
    rewrite E in A, B. auto. }
  destruct (Run _ _ _ _ _ H3) as [P3 K3].
  destruct (Run _ _ _ _ _ H4) as [P4 K4].
  destruct (Run _ _ _ _ _ H5) as [P5 K5].
  destruct (Run _ _ _ _ _ H6) as [P6 K6].
  destruct (Run _ _ _ _ _ H7) as [P7 K7].
  assert (K2 : same_keys st s2).
  { apply save_table_returns in H1 as [S1 _].
    apply same_keys_objects. intros g. unfold s2, with_self. simpl self.
    transitivity (objects_of g (self s1)); [destruct g; reflexivity|].
    rewrite S1. unfold save_start, with_self. simpl. destruct g; reflexivity. }
  split.
  - rewrite S.
    apply (proj2 P7), (proj2 P6), (proj2 P5), (proj2 P4), (proj2 P3).
    reflexivity.
  - intros g k Hk. unfold path_recorded. rewrite S.
    pose proof (@save_group_records_paths dir ext _ _ _ _ _ H3) as R3.
    pose proof (@save_group_records_paths dir ext _ _ _ _ _ H4) as R4.
    pose proof (@save_group_records_paths dir ext _ _ _ _ _ H5) as R5.
    pose proof (@save_group_records_paths dir ext _ _ _ _ _ H6) as R6.
    pose proof (@save_group_records_paths dir ext _ _ _ _ _ H7) as R7.
    destruct g.
    + apply (proj1 P7), (proj1 P6), (proj1 P5), (proj1 P4), R3.
      now rewrite (K2 GRecordings).
    + apply (proj1 P7), (proj1 P6), (proj1 P5), R4.
      now rewrite (K3 GFeatures), (K2 GFeatures).
    + apply (proj1 P7), (proj1 P6), R5.
      now rewrite (K4 GClasses), (K3 GClasses), (K2 GClasses).
    + apply (proj1 P7), R6.
      now rewrite (K5 GEnrollments), (K4 GEnrollments), (K3 GEnrollments),
        (K2 GEnrollments).
    + apply R7.
      now rewrite (K6 GTrials), (K5 GTrials), (K4 GTrials), (K3 GTrials),
        (K2 GTrials).
Qed.

End SavePaths.

Section SaveFiles.
Context {W : World}.

Lemma saved_paths_app a b : saved_paths (a ++ b) = saved_paths a ++ saved_paths b.
Proof.
  induction a as [|ev a IH]; [reflexivity|].
  destruct ev; simpl; now rewrite IH.
Qed.

Lemma saved_paths_loads evs : Forall is_load evs -> saved_paths evs = [].
Proof.
  induction 1 as [|ev evs Hev _ IH]; [reflexivity|].
  destruct ev; simpl in *; try contradiction. exact IH.
Qed.

(** One pass of a loop of [save] writes the file of its key. *)
Lemma save_pass_files g a dir ext (up : bool) (acc : dict string) k st r st' :
  (v <- value_of g k true ;;
   obj_save v (path_join_str dir (k ++ ext)%string) a ;;
   (if up then setitem_path g k (Some (path_join_str dir (k ++ ext)%string))
    else ret tt) ;;
   ret (dict_set acc k (k ++ ext)%string)) st = (Return r, st') ->
  exists evs,
    trace st' = trace st ++ evs
    /\ saved_paths evs = [path_join_str dir (k ++ ext)%string].
Proof.
  intros H.
  apply bind_returns in H as (v & s0 & Hv & H).
  apply bind_returns in H as ([] & s1 & Hs & H).
  apply bind_returns in H as ([] & s2 & Hp & H).
  unfold ret in H. inversion H; subst s2 r; clear H.
  destruct (value_of_reads g k true st) as (_ & _ & _ & evs & Ht & Hl).
  rewrite Hv in Ht. simpl in Ht.
  destruct v as [t|]; [|discriminate]. simpl in Hs.
  apply save_table_returns in Hs as [_ Ts].
  assert (Tp : trace st' = trace s1).
  { destruct up.
    - pose proof (setitem_path_effect g k
                    (Some (path_join_str dir (k ++ ext)%string)) s1) as (T & _).
      now rewrite Hp in T.
    - inversion Hp. reflexivity. }
  exists (evs ++ [EvSave t (path_join_str dir (k ++ ext)%string) a]). split.
  - now rewrite Tp, Ts, Ht, app_assoc.
  - rewrite saved_paths_app, (saved_paths_loads Hl). reflexivity.
Qed.

Lemma save_group_files g a dir ext up st fn st' :
  save_group g a dir ext up st = (Return fn, st') ->
  exists evs,
    trace st' = trace st ++ evs
    /\ saved_paths evs = group_files g (self st) dir ext.
Proof.
  unfold save_group, for_items, items_of, group_files, group_keys.
  intros H. apply bind_returns in H as (items & s1 & H1 & H2).
  apply bind_returns in H1 as (d & s0 & H0 & H1).
  unfold get_self in H0. inversion H0; subst d s0; clear H0.
  destruct (objects_of g (self st)) as [m|]; unfold ret in H1;
    inversion H1; subst items s1; clear H1.
  - revert H2. generalize (@nil (string * string)). generalize st.
    induction (dict_keys m) as [|k keys IH]; intros s acc H; simpl in H.
    + inversion H. exists (@nil IOEvent). now rewrite app_nil_r.
    + apply bind_returns in H as (acc' & s' & Hb & H).
      apply IH in H as (evs2 & T2 & F2).
      apply (@save_pass_files g a dir ext up acc k s acc' s') in Hb
        as (evs1 & T1 & F1).
      exists (evs1 ++ evs2). split.
      * now rewrite T2, T1, app_assoc.
      * rewrite saved_paths_app, F1, F2. reflexivity.
  - simpl in H2. inversion H2. exists (@nil IOEvent). now rewrite app_nil_r.
Qed.

(** X10: a call of [save] that returns has written exactly one table
    file per table, all under the directory of the manifest and with the
    one extension of the call ([.tsv] for a tab separator, [.csv]
    otherwise): [segments] first, then the keys of recordings, features,
    classes, enrollments and trials, in the order of the keys. *)
Theorem save_writes_one_file_per_table path up arg st st' :
  save path up arg st = (Return tt, st') ->
  exists evs,
    trace st' = trace st ++ evs
    /\ saved_paths evs =
         path_join_str (fst (resolve_dataset_path path))
           ("segments" ++ ext_of (effective_sep arg (self st)))%string
         :: group_files GRecordings (self st) (fst (resolve_dataset_path path))
              (ext_of (effective_sep arg (self st)))
         ++ group_files GFeatures (self st) (fst (resolve_dataset_path path))
              (ext_of (effective_sep arg (self st)))
         ++ group_files GClasses (self st) (fst (resolve_dataset_path path))
              (ext_of (effective_sep arg (self st)))
         ++ group_files GEnrollments (self st) (fst (resolve_dataset_path path))
              (ext_of (effective_sep arg (self st)))
         ++ group_files GTrials (self st) (fst (resolve_dataset_path path))
              (ext_of (effective_sep arg (self st)))
    /\ ext_of (effective_sep arg (self st))
       = if sep_is_tab (effective_sep arg (self st)) then ".tsv" else ".csv".
Proof.
  intros H.
  apply save_stages in H
    as (segs & s1 & s3 & s4 & s5 & s6 & s7 & fn1 & fn2 & fn3 & fn4 & fn5 & doc
        & _ & H1 & H3 & H4 & H5 & H6 & H7 & _ & T).
  set (dir := fst (resolve_dataset_path path)) in *.
  set (ext := ext_of (effective_sep arg (self st))) in *.
  assert (Keys : forall g x fn y a,
             save_group g a dir ext up x = (Return fn, y) -> same_keys x y).
  { intros g x fn y a E.
    pose proof (same_keys_save_group g a dir ext up x) as B.
    now rewrite E in B. }
  pose proof (Keys _ _ _ _ _ H3) as K3.
  pose proof (Keys _ _ _ _ _ H4) as K4.
  pose proof (Keys _ _ _ _ _ H5) as K5.
  pose proof (Keys _ _ _ _ _ H6) as K6.
  apply save_table_returns in H1 as [S1 T1].
  set (s2 := if up
             then with_self
                    (set__segments_path
                       (Some (path_join_str dir ("segments" ++ ext)%string))
                       (self s1)) s1
             else s1) in *.
  assert (K2 : forall g, group_keys g (self s2) = group_keys g (self st)).
  { intros g. unfold group_keys.
    assert (E : objects_of g (self s2) = objects_of g (self st)).
    { transitivity (objects_of g (self s1)).
      - unfold s2. destruct up; [destruct g|]; reflexivity.
      - rewrite S1. unfold save_start, with_self.
        destruct up; [destruct g|]; reflexivity. }
    now rewrite E. }
  apply save_group_files in H3 as (e3 & T3 & F3).
  apply save_group_files in H4 as (e4 & T4 & F4).
  apply save_group_files in H5 as (e5 & T5 & F5).
  apply save_group_files in H6 as (e6 & T6 & F6).
  apply save_group_files in H7 as (e7 & T7 & F7).
  unfold group_files in *.
  rewrite K2 in F3.
  rewrite (K3 GFeatures), K2 in F4.
  rewrite (K4 GClasses), (K3 GClasses), K2 in F5.
  rewrite (K5 GEnrollments), (K4 GEnrollments), (K3 GEnrollments), K2 in F6.
  rewrite (K6 GTrials), (K5 GTrials), (K4 GTrials), (K3 GTrials), K2 in F7.
  assert (T0 : trace (save_start up (effective_sep arg (self st)) st) = trace st).
  { unfold save_start. destruct up; reflexivity. }
  assert (T2 : trace s2 = trace s1).
  { unfold s2. destruct up; reflexivity. }
  exists ([EvSave segs (path_join_str dir ("segments" ++ ext)%string)
             (Sep (effective_sep arg (self st)))]
          ++ e3 ++ e4 ++ e5 ++ e6 ++ e7
          ++ [EvOpen (snd (resolve_dataset_path path)) ModeW;
              EvYamlDump doc (snd (resolve_dataset_path path))]).
  split; [|split; [|reflexivity]].
  - rewrite T, T7, T6, T5, T4, T3, T2, T1, T0. rewrite <- !app_assoc. reflexivity.
  - rewrite !saved_paths_app, F3, F4, F5, F6, F7. simpl.
    rewrite app_nil_r. reflexivity.
Qed.

End SaveFiles.

(* ================================================================== *)
(** ** The further properties on the small file system *)

Lemma init_group_slots_witness :
  __init__ (W := demo_world) (AObj demo_segments) None (Some demo_recordings_arg)
    None None (Some demo_trials_arg) false None
    = Return demo_lazy
  /\ NoDup (dict_keys demo_recordings_arg)
  /\ group_keys GRecordings demo_lazy = dict_keys demo_recordings_arg
  /\ slot_of GRecordings "wav" demo_lazy
     = option_map (slot_of_arg (classes_of_group GRecordings))
         (dict_get demo_recordings_arg "wav").
Proof.
  assert (E : __init__ (W := demo_world) (AObj demo_segments) None
                (Some demo_recordings_arg) None None (Some demo_trials_arg)
                false None
              = Return demo_lazy) by (vm_compute; reflexivity).
  assert (ND : NoDup (dict_keys demo_recordings_arg)).
  { repeat constructor. simpl. tauto. }
  split; [exact E|]. split; [exact ND|].
  destruct (@init_group_slots demo_world _ _ _ _ _ _ _ _ _ GRecordings E ND)
    as (K & _ & S).
  split; [exact K | exact (S "wav")].
Defined.

Lemma accessor_errors_witness :
  objects_of GFeatures (self demo_st) = None
  /\ value_of (W := demo_world) GFeatures "mfcc" true demo_st
     = (Raise (TypeError "'NoneType' object is not subscriptable"), demo_st)
  /\ value_of (W := demo_world) GRecordings "mp3" true demo_st
     = (Raise (KeyError "mp3"), demo_st).
Proof.
  assert (E1 : objects_of GFeatures (self demo_st) = None)
    by (vm_compute; reflexivity).
  assert (E2 : objects_of GRecordings (self demo_st) = Some [("wav", None)])
    by (vm_compute; reflexivity).
  split; [exact E1|]. split.
  - exact (proj1 (@accessor_errors demo_world GFeatures "mfcc" true demo_st) E1).
  - exact (proj1 (proj2 (@accessor_errors demo_world GRecordings "mp3" true
                           demo_st)) _ E2 eq_refl).
Defined.

Lemma accessor_keeps_materialized_witness :
  slot_of GRecordings "wav" (self demo_loaded)
    = Some (Materialized (mkTable (W := demo_world) 1 KRecordingSet
                            ["rec1"; "rec2"]))
  /\ slot_of GRecordings "wav"
       (self (snd (value_of (W := demo_world) GTrials "eval" true demo_loaded)))
     = Some (Materialized (mkTable (W := demo_world) 1 KRecordingSet
                             ["rec1"; "rec2"])).
Proof.
  assert (E : slot_of GRecordings "wav" (self demo_loaded)
              = Some (Materialized (mkTable (W := demo_world) 1 KRecordingSet
                                      ["rec1"; "rec2"])))
    by (vm_compute; reflexivity).
  split; [exact E|].
  exact (@accessor_keeps_materialized demo_world GTrials "eval" true demo_loaded
           GRecordings "wav" _ E).
Defined.

Lemma accessor_load_failure_witness :
  slot_of GRecordings "wav" (self (demo_state demo_broken demo_disk))
    = Some (Reference (parse_path "data/missing.csv"))
  /\ fst (value_of (W := demo_world) GRecordings "wav" true
            (demo_state demo_broken demo_disk))
     = Raise (ExternalError "NotFoundError")
  /\ slot_of GRecordings "wav"
       (self (snd (value_of (W := demo_world) GRecordings "wav" true
                     (demo_state demo_broken demo_disk))))
     = Some (Reference (parse_path "data/missing.csv")).
Proof.
  assert (E : slot_of GRecordings "wav" (self (demo_state demo_broken demo_disk))
              = Some (Reference (parse_path "data/missing.csv")))
    by (vm_compute; reflexivity).
  assert (N : GRecordings <> GTrials) by discriminate.
  assert (L : table_load (World := demo_world) (kind_of GRecordings false)
                (parse_path "data/missing.csv")
                (Sep (table_sep (self (demo_state demo_broken demo_disk))))
                (disk (demo_state demo_broken demo_disk))
              = inl (ExternalError "NotFoundError"))
    by (vm_compute; reflexivity).
  destruct (@accessor_load_failure demo_world GRecordings "wav" _ true _ _ N E L)
    as [H1 H2].
  split; [exact E|]. split; [rewrite H1; reflexivity | exact H2].
Defined.

Lemma iterate_unconfigured_group_witness :
  objects_of GFeatures (self demo_st) = None
  /\ for_items (items_of (W := demo_world) GFeatures true)
       (fun (n : nat) _ _ => ret (S n)) 0 demo_st
     = (Return 0, demo_st).
Proof.
  assert (E : objects_of GFeatures (self demo_st) = None)
    by (vm_compute; reflexivity).
  split; [exact E|].
  exact (proj2 (@iterate_unconfigured_group demo_world GFeatures true nat
                  (fun n _ _ => ret (S n)) 0 demo_st E)).
Defined.

Lemma save_materializes_all_witness :
  save (W := demo_world) (parse_path "out") true (Some tab) demo_st
    = (Return tt, demo_saved)
  /\ all_materialized GTrials (self demo_saved)
  /\ group_keys GTrials (self demo_saved) = group_keys GTrials (self demo_st).
Proof.
  assert (E : save (W := demo_world) (parse_path "out") true (Some tab) demo_st
              = (Return tt, demo_saved)) by (vm_compute; reflexivity).
  split; [exact E|].
  destruct (@save_materializes_all demo_world _ _ _ _ _ E) as (A & _ & K).
  split; [exact (A GTrials) | exact (K GTrials)].
Defined.

Lemma save_updates_paths_witness :
  save (W := demo_world) (parse_path "out") true (Some tab) demo_st
    = (Return tt, demo_saved)
  /\ table_sep (self demo_saved) = Some tab
  /\ path_recorded (W := demo_world) (parse_path "out") ".tsv" GRecordings "wav"
       demo_saved.
Proof.
  assert (E : save (W := demo_world) (parse_path "out") true (Some tab) demo_st
              = (Return tt, demo_saved)) by (vm_compute; reflexivity).
  split; [exact E|].
  destruct (@save_updates_paths demo_world _ _ _ _ E) as (A & _ & P).
  split; [exact A|].
  assert (I : In "wav" (group_keys GRecordings (self demo_st)))
    by (vm_compute; tauto).
  exact (P GRecordings "wav" I).
Defined.

Lemma save_writes_one_file_per_table_witness :
  save (W := demo_world) (parse_path "out") true (Some tab) demo_st
    = (Return tt, demo_saved)
  /\ exists evs,
       trace demo_saved = trace demo_st ++ evs
       /\ saved_paths evs
          = [parse_path "out/segments.tsv"; parse_path "out/wav.tsv";
             parse_path "out/eval.tsv"].
Proof.
  assert (E : save (W := demo_world) (parse_path "out") true (Some tab) demo_st
              = (Return tt, demo_saved)) by (vm_compute; reflexivity).
  split; [exact E|].
  destruct (@save_writes_one_file_per_table demo_world _ _ _ _ _ E)
    as (evs & T & F & _).
  exists evs. split; [exact T|]. rewrite F. vm_compute. reflexivity.
Defined.

Lemma unloaded_segments_block_witness :
  _segments (self (demo_state demo_unloaded demo_disk)) = None
  /\ update_from_disk (W := demo_world) (demo_state demo_unloaded demo_disk)
     = (Raise (AttributeError "segments_path"),
        demo_state demo_unloaded demo_disk)
  /\ fst (save (W := demo_world) (parse_path "out") false None
            (demo_state demo_unloaded demo_disk))
     = Raise (AttributeError "segments_path").
Proof.
  assert (E : _segments (self (demo_state demo_unloaded demo_disk)) = None)
    by (vm_compute; reflexivity).
  split; [exact E|].
  destruct (@unloaded_segments_block demo_world
              (demo_state demo_unloaded demo_disk) (parse_path "out") false None E)
    as [H1 H2].
  split; [exact H1 | rewrite H2; reflexivity].
Defined.

Lemma update_from_disk_materializes_witness :
  update_from_disk (W := demo_world) demo_st = (Return tt, demo_updated)
  /\ all_materialized GRecordings (self demo_updated)
  /\ bookkeeping (self demo_updated) = bookkeeping (self demo_st).
Proof.
  assert (E : update_from_disk (W := demo_world) demo_st
              = (Return tt, demo_updated)) by (vm_compute; reflexivity).
  split; [exact E|].
  destruct (@update_from_disk_materializes demo_world _ _ E)
    as (A & _ & _ & B & _).
  split; [exact (A GRecordings) | exact B].
Defined.

(* ================================================================== *)
(** ** The separator of the files that [save] writes *)

Section SaveCalls.
Context {W : World}.
















End SaveCalls.

